(** * Saved-queue tools: frame/prefix rewriting and reseeding

    A shallow embedding of [reframe_queue_and_prefixes.py] and
    [reseed_queue.py], and the properties of their queue traversal, of the
    filename-prefix rule and of the seed counters.

    Conventions of the embedding.
    - A Python [str] is a [string]; a character stands for the code point
      of the same number, so the strings covered are those whose code points
      are below 256.  On these [\d] is exactly the ten ASCII digits.
    - A parsed JSON document is a tree ([value]); a [dict] is an association
      list in insertion order, because the order of iteration decides which
      node receives which seed.
    - Both scripts mutate the document in place.  A function that mutates
      its argument returns the argument as it is after the call, together
      with the exception that ended the call, if any: what was written
      before a [raise] stays written. *)

From Stdlib Require Import ZArith String Ascii List Bool Lia.
From Stdlib Require Import DecimalString Floats.SpecFloat.
Import ListNotations.

Open Scope string_scope.
Open Scope Z_scope.

(** ** Python values *)

Local Set Warnings "-register-all".

Inductive value : Type :=
| VNone
| VBool (b : bool)
| VInt (z : Z)
| VFloat (f : spec_float)
| VStr (s : string)
| VList (l : list value)
| VDict (d : list (string * value)).

(** A [dict] with [str] keys, in insertion order. *)
Definition dict : Type := list (string * value).

(** The exceptions the two scripts can raise. *)
Inductive exn : Type :=
| AttributeError
| TypeError
| ValueError.

(** How a call ends: [None] is a normal return. *)
Definition outcome : Type := option exn.

Definition isinstance_dict (v : value) : bool :=
  match v with VDict _ => true | _ => false end.

Definition isinstance_list (v : value) : bool :=
  match v with VList _ => true | _ => false end.

Definition isinstance_str (v : value) : bool :=
  match v with VStr _ => true | _ => false end.

(** [v == "lit"] for a string literal. *)
Definition eq_str (v : value) (lit : string) : bool :=
  match v with VStr s => String.eqb s lit | _ => false end.

Module Dict.

Section Assoc.
Context {A : Type}.

(** [d.get(k)] as an option; the first binding of [k]. *)
Fixpoint get (k : string) (d : list (string * A)) : option A :=
  match d with
  | [] => None
  | (k', v) :: r => if String.eqb k k' then Some v else get k r
  end.

(** [k in d]. *)
Definition mem (k : string) (d : list (string * A)) : bool :=
  match get k d with Some _ => true | None => false end.

(** [d[k] = v]: an existing key keeps its place, a new key goes last. *)
Fixpoint set (k : string) (v : A) (d : list (string * A))
  : list (string * A) :=
  match d with
  | [] => [(k, v)]
  | (k', v') :: r =>
      if String.eqb k k' then (k', v) :: r else (k', v') :: set k v r
  end.
End Assoc.

End Dict.

(** [d.get(k)] with Python's default [None]. *)
Definition dict_get_none (k : string) (d : dict) : value :=
  match Dict.get k d with Some v => v | None => VNone end.

(** ** Loops over mutable containers

    [for x in l: body(x)] where the body may mutate [x], update the local
    state [S] of the enclosing function, and raise.  After a raise the
    remaining elements are left as they are. *)

Section Loops.
Context {A S : Type}.
Variable body : A -> S -> A * S * outcome.

Fixpoint for_each (l : list A) (s : S) : list A * S * outcome :=
  match l with
  | [] => ([], s, None)
  | x :: r =>
      match body x s with
      | (x', s', Some e) => (x' :: r, s', Some e)
      | (x', s', None) =>
          let '(r', s'', o) := for_each r s' in (x' :: r', s'', o)
      end
  end.
End Loops.

(** A loop whose body has no local state to update. *)
Definition stateless {A : Type} (body : A -> A * outcome)
  (x : A) (s : unit) : A * unit * outcome :=
  let (x', o) := body x in (x', s, o).

Definition for_in {A : Type} (body : A -> A * outcome) (l : list A)
  : list A * outcome :=
  let '(l', _, o) := for_each (stateless body) l tt in (l', o).

(** The first exception among those the elements of [l] stand for. *)
Fixpoint first_outcome {A : Type} (ev : A -> outcome) (l : list A) : outcome :=
  match l with
  | [] => None
  | x :: r =>
      match ev x with
      | Some e => Some e
      | None => first_outcome ev r
      end
  end.

(** [for k in keys: body(k)] where the body mutates one object [d]. *)
Fixpoint for_keys {K D : Type} (body : K -> D -> D * outcome)
  (keys : list K) (d : D) : D * outcome :=
  match keys with
  | [] => (d, None)
  | k :: r =>
      match body k d with
      | (d', Some e) => (d', Some e)
      | (d', None) => for_keys body r d'
      end
  end.

(** [l[i] = x] for an index in range. *)
Fixpoint list_set {A : Type} (i : nat) (x : A) (l : list A) : list A :=
  match l, i with
  | [], _ => []
  | _ :: r, O => x :: r
  | y :: r, S j => y :: list_set j x r
  end.

(** The same loop over the values of a dict ([d.values()], [d.items()]). *)
Definition on_value {S : Type} (body : value -> S -> value * S * outcome)
  (kv : string * value) (s : S) : (string * value) * S * outcome :=
  let '(v', s', o) := body (snd kv) s in ((fst kv, v'), s', o).

Definition for_each_value {S : Type}
  (body : value -> S -> value * S * outcome) (d : dict) (s : S)
  : dict * S * outcome :=
  for_each (on_value body) d s.

Definition for_in_values (body : value -> value * outcome) (d : dict)
  : dict * outcome :=
  let '(d', _, o) := for_each_value (stateless body) d tt in (d', o).

(** ** reframe_queue_and_prefixes.py *)

Module Reframe.

(** *** The regular expression of [rewrite_prefix]

    [-(\d+)f(?=(\d+steps)?$)], matched by [re.sub] without flags. *)

(** [\d] on code points below 256. *)
Definition is_digit (c : ascii) : bool :=
  ((48 <=? nat_of_ascii c)%nat && (nat_of_ascii c <=? 57)%nat)%bool.

(** The longest run of digits at the head of [s], and what follows it.
    [\d+] is greedy, and in this pattern the run is always followed by a
    letter, so giving back digits never helps a match: the longest run is
    the only candidate. *)
Fixpoint span_digits (s : string) : string * string :=
  match s with
  | String c r =>
      if is_digit c
      then let (ds, rest) := span_digits r in (String c ds, rest)
      else ("", s)
  | "" => ("", "")
  end.

(** [s.startswith(p)], returning the rest of [s]. *)
Fixpoint strip_prefix (p s : string) : option string :=
  match p, s with
  | "", _ => Some s
  | String a p', String b s' =>
      if Ascii.eqb a b then strip_prefix p' s' else None
  | String _ _, "" => None
  end.

(** [$] without [re.MULTILINE]: at the end of the string, or just before
    a newline that is the last character. *)
Definition at_dollar (s : string) : bool :=
  match s with
  | "" => true
  | String c "" => Ascii.eqb c "010"%char
  | _ => false
  end.

(** [\d+steps] followed by [$]. *)
Definition steps_suffix (s : string) : bool :=
  match span_digits s with
  | (String _ _, r) =>
      match strip_prefix "steps" r with
      | Some r' => at_dollar r'
      | None => false
      end
  | ("", _) => false
  end.

(** The lookahead [(?=(\d+steps)?$)]: the optional group is tried first,
    then skipped. *)
Definition lookahead (s : string) : bool :=
  (steps_suffix s || at_dollar s)%bool.

(** A match of the whole pattern at the head of [s]: the number of
    characters it consumes ([-], the digits and [f]). *)
Definition match_here (s : string) : option nat :=
  match s with
  | String c r =>
      if Ascii.eqb c "-" then
        match span_digits r with
        | (String d ds, String c' r') =>
            if (Ascii.eqb c' "f" && lookahead r')%bool
            then Some (S (S (String.length (String d ds))))
            else None
        | _ => None
        end
      else None
  | "" => None
  end.

(** [re.sub(pattern, repl, s)]: scan from the left; a match is replaced
    by [repl] and the scan resumes behind it ([skip] counts the characters
    of the match still to step over); a character where no match starts
    is copied.  [repl] here never holds a backslash, so it is inserted
    as it is. *)
Fixpoint sub_scan (repl : string) (skip : nat) (s : string) : string :=
  match s with
  | "" => ""
  | String c r =>
      match skip with
      | S k => sub_scan repl k r
      | O =>
          match match_here s with
          | Some n => repl ++ sub_scan repl (Nat.pred n) r
          | None => String c (sub_scan repl 0 r)
          end
      end
  end.

Definition re_sub (repl s : string) : string := sub_scan repl 0 s.

(** [str(n)] for an [int]. *)
Definition str_of_int (n : Z) : string :=
  NilZero.string_of_int (Z.to_int n).

(** [f'-{frames}f'] *)
Definition segment (frames : Z) : string :=
  "-" ++ str_of_int frames ++ "f".

(** [rewrite_prefix] on a [str]. *)
Definition rewrite_prefix_str (prefix : string) (frames : Z) : string :=
  let new := re_sub (segment frames) prefix in
  if String.eqb new prefix then prefix ++ segment frames else new.

(** Strings of digits, and strings that hold a dash. *)
Fixpoint all_digits (s : string) : bool :=
  match s with
  | "" => true
  | String c r => (is_digit c && all_digits r)%bool
  end.


(** [rewrite_prefix]: anything that is not a [str] is returned as it is. *)
Definition rewrite_prefix (prefix : value) (frames : Z) : value :=
  match prefix with
  | VStr s => VStr (rewrite_prefix_str s frames)
  | _ => prefix
  end.

(** *** The canonical graph: [fix_graph_nodes] *)

(** [hay in s] for two strings: [hay] occurs in [s]. *)
Fixpoint is_infix (hay s : string) : bool :=
  match strip_prefix hay s with
  | Some _ => true
  | None => match s with String _ r => is_infix hay r | "" => false end
  end.

(** [node.setdefault("inputs", {})]: the node after the call, and the
    object returned. *)
Definition setdefault_inputs (node : dict) : dict * value :=
  match Dict.get "inputs" node with
  | Some v => (node, v)
  | None => (Dict.set "inputs" (VDict []) node, VDict [])
  end.

(** Lines 19-21: [inputs["length"] = int(frames)].  Item assignment with
    a [str] key raises [TypeError] on anything but a dict. *)
Definition set_length (node : dict) (frames : Z) : dict * outcome :=
  let (node1, inputs) := setdefault_inputs node in
  match inputs with
  | VDict ins =>
      (Dict.set "inputs" (VDict (Dict.set "length" (VInt frames) ins)) node1,
       None)
  | _ => (node1, Some TypeError)
  end.

(** Lines 24-27.  ["filename_prefix" in inputs] is a key test on a dict,
    an element test on a list, a substring test on a [str] and a
    [TypeError] on the rest; [inputs["filename_prefix"]] then raises
    [TypeError] on a list and on a [str]. *)
Definition set_filename_prefix (node : dict) (frames : Z) : dict * outcome :=
  let (node1, inputs) := setdefault_inputs node in
  match inputs with
  | VDict ins =>
      match Dict.get "filename_prefix" ins with
      | Some p =>
          (Dict.set "inputs"
             (VDict (Dict.set "filename_prefix" (rewrite_prefix p frames) ins))
             node1,
           None)
      | None => (node1, None)
      end
  | VList l =>
      if existsb (fun v => eq_str v "filename_prefix") l
      then (node1, Some TypeError) else (node1, None)
  | VStr s =>
      if is_infix "filename_prefix" s
      then (node1, Some TypeError) else (node1, None)
  | _ => (node1, Some TypeError)
  end.

Definition is_save_type (v : value) : bool :=
  (eq_str v "SaveVideo" || eq_str v "SaveImage")%bool.

(** The body of the loop of [fix_graph_nodes].  [node.get] exists on a
    dict only: any other value raises [AttributeError]. *)
Definition fix_graph_node (frames : Z) (node : value) : value * outcome :=
  match node with
  | VDict nd =>
      let (nd1, o1) :=
        if eq_str (dict_get_none "class_type" nd) "EmptyHunyuanLatentVideo"
        then set_length nd frames else (nd, None) in
      match o1 with
      | Some e => (VDict nd1, Some e)
      | None =>
          if is_save_type (dict_get_none "class_type" nd1)
          then let (nd2, o2) := set_filename_prefix nd1 frames in
               (VDict nd2, o2)
          else (VDict nd1, None)
      end
  | _ => (node, Some AttributeError)
  end.

Definition fix_graph_nodes (graph_dict : dict) (frames : Z)
  : dict * outcome :=
  for_in_values (fix_graph_node frames) graph_dict.

(** *** The UI mirror: [fix_workflow_nodes] *)

(** Lines 46-51 on the list [wv]: index 2 receives [frames] for the sizing
    type, index 0 is rewritten for a save type when it is a [str]. *)
Definition fix_widgets (ntype : value) (wv : list value) (frames : Z)
  : list value :=
  let wv1 :=
    if (eq_str ntype "EmptyHunyuanLatentVideo"
        && (3 <=? List.length wv)%nat)%bool
    then list_set 2 (VInt frames) wv else wv in
  if is_save_type ntype
  then match wv1 with
       | VStr s :: r => rewrite_prefix (VStr s) frames :: r
       | _ => wv1
       end
  else wv1.

(** The body of the loop over [nodes]. *)
Definition fix_workflow_node (frames : Z) (n : value) : value * outcome :=
  match n with
  | VDict nd =>
      match Dict.get "widgets_values" nd with
      | Some (VList wv) =>
          (VDict (Dict.set "widgets_values"
                    (VList (fix_widgets (dict_get_none "type" nd) wv frames))
                    nd),
           None)
      | _ => (n, None)
      end
  | _ => (n, Some AttributeError)
  end.

Definition fix_workflow_nodes (meta : dict) (frames : Z) : dict * outcome :=
  match
    match Dict.get "extra_pnginfo" meta with
    | Some v => v
    | None => VDict []
    end
  with
  | VDict ep =>
      match Dict.get "workflow" ep with
      | Some (VDict wf) =>
          match Dict.get "nodes" wf with
          | Some (VList nodes) =>
              let (nodes', o) := for_in (fix_workflow_node frames) nodes in
              (Dict.set "extra_pnginfo"
                 (VDict (Dict.set "workflow"
                           (VDict (Dict.set "nodes" (VList nodes') wf)) ep))
                 meta,
               o)
          | _ => (meta, None)
          end
      | _ => (meta, None)
      end
  | _ => (meta, Some AttributeError)
  end.

(** *** Jobs and sections *)

(** Lines 61-62: the graph at index 2. *)
Definition fix_job_graph (job : list value) (frames : Z)
  : list value * outcome :=
  match job with
  | a :: b :: VDict graph :: r =>
      let (graph', o) := fix_graph_nodes graph frames in
      (a :: b :: VDict graph' :: r, o)
  | _ => (job, None)
  end.

(** Lines 64-65: the metadata at index 3. *)
Definition fix_job_meta (job : list value) (frames : Z)
  : list value * outcome :=
  match job with
  | a :: b :: c :: VDict meta :: r =>
      let (meta', o) := fix_workflow_nodes meta frames in
      (a :: b :: c :: VDict meta' :: r, o)
  | _ => (job, None)
  end.

Definition fix_job_entry (job_entry : value) (frames : Z)
  : value * outcome :=
  match job_entry with
  | VList job =>
      match fix_job_graph job frames with
      | (job1, Some e) => (VList job1, Some e)
      | (job1, None) =>
          let (job2, o) := fix_job_meta job1 frames in (VList job2, o)
      end
  | _ => (job_entry, None)
  end.

(** The body of the loop over the three section names. *)
Definition fix_section (frames : Z) (key : string) (data : dict)
  : dict * outcome :=
  match Dict.get key data with
  | Some (VList arr) =>
      let (arr', o) := for_in (fun job => fix_job_entry job frames) arr in
      (Dict.set key (VList arr') data, o)
  | _ => (data, None)
  end.

Definition known_queues : list string :=
  ["queue_running"; "queue_pending"; "queue_failed"].

(** [process_saved_queue]: on a normal return the value returned is
    [data] itself, that is the first component. *)
Definition process_saved_queue (data : dict) (frames : Z) : dict * outcome :=
  for_keys (fix_section frames) known_queues data.

(** [job[2]] exists and is a dict. *)
Definition index2_is_dict (job : list value) : bool :=
  match nth_error job 2 with
  | Some v => isinstance_dict v
  | None => false
  end.

(** No job of the three sections is a list. *)
Definition no_list_jobs (data : dict) : bool :=
  forallb
    (fun key =>
       match Dict.get key data with
       | Some (VList arr) => forallb (fun job => negb (isinstance_list job)) arr
       | _ => true
       end)
    known_queues.

End Reframe.

(** ** reseed_queue.py *)

(** What [reseed_queue.py] takes from the Python runtime and does not
    define itself.  The properties below hold for every such runtime. *)
Class PyRuntime : Type := {
  (** [int(s)] for a [str]: [None] when it raises. *)
  int_of_str : string -> option Z;
  (** The state of a [random.Random]. *)
  rng : Type;
  (** [random.Random(n)] *)
  rng_seeded : Z -> rng;
  (** [random.Random()]: seeded from the operating system, so any state. *)
  rng_unseeded : rng;
  (** [rnd.randint(0, 2_147_483_647)]: the number drawn and the next state. *)
  randint : rng -> Z * rng
}.

Module Reseed.

Definition KSAMPLER_CLASSES : list string :=
  ["KSampler"; "KSamplerAdvanced"; "KSampler (Efficient)"; "KSamplerSDXL";
   "KSamplerTiled"; "SamplerCustom"].

(** A value returned, or an exception raised, by a function that mutates
    nothing. *)
Inductive result (A : Type) : Type :=
| Ok (a : A)
| Raise (e : exn).
Arguments Ok {A} a.
Arguments Raise {A} e.

(** *** The generators *)

(** The test of line 23 ([isinstance(item, list) and len(item) >= 3 and
    isinstance(item[2], dict)]), returning [item[2]]. *)
Definition standard_nodes (item : value) : option dict :=
  match item with
  | VList (_ :: _ :: VDict nodes :: _) => Some nodes
  | _ => None
  end.

(** Whether [iter_queue_items] yields [item]. *)
Definition yields_item (item : value) : bool :=
  match standard_nodes item with
  | Some _ => true
  | None => isinstance_dict item
  end.

(** [enumerate(items)] from [idx]. *)
Fixpoint enumerate_from {A : Type} (idx : nat) (items : list A)
  : list (nat * A) :=
  match items with
  | [] => []
  | x :: r => (idx, x) :: enumerate_from (S idx) r
  end.

(** What [iter_queue_items] yields in one section. *)
Definition section_items (doc : dict) (section : string)
  : list (string * nat * value) :=
  match Dict.get section doc with
  | Some (VList items) =>
      map (fun p => (section, fst p, snd p))
        (filter (fun p => yields_item (snd p)) (enumerate_from 0 items))
  | _ => []
  end.

(** [iter_queue_items(doc, which)], read on one state of [doc]. *)
Definition iter_queue_items (doc : dict) (which : list string)
  : list (string * nat * value) :=
  flat_map (section_items doc) which.

(** The dict whose entries [iter_nodes_from_item] goes through. *)
Definition item_nodes (item : value) : option dict :=
  match standard_nodes item with
  | Some nodes => Some nodes
  | None => match item with VDict d => Some d | _ => None end
  end.

(** [iter_nodes_from_item(item)] *)
Definition iter_nodes_from_item (item : value) : list (string * value) :=
  match item_nodes item with
  | Some nodes => filter (fun kv => isinstance_dict (snd kv)) nodes
  | None => []
  end.

(** *** Seed fields *)

(** [int(f)] for a [float]: towards zero; infinities and NaN raise. *)
Definition int_of_float (f : spec_float) : option Z :=
  match f with
  | S754_zero _ => Some 0
  | S754_finite s m e =>
      let a := Z.shiftl (Zpos m) e in Some (if s then - a else a)
  | S754_infinity _ => None
  | S754_nan => None
  end.

Section WithRuntime.
Context {RT : PyRuntime}.

(** [int(v)]: [None] when it raises (the caller catches everything). *)
Definition py_int (v : value) : option Z :=
  match v with
  | VInt z => Some z
  | VBool b => Some (if b then 1 else 0)
  | VFloat f => int_of_float f
  | VStr s => int_of_str s
  | VNone => None
  | VList _ => None
  | VDict _ => None
  end.

(** [cls in KSAMPLER_CLASSES]: membership in a set hashes [cls], and a
    list or a dict is not hashable. *)
Definition in_ksampler_classes (cls : value) : result bool :=
  match cls with
  | VStr s => Ok (existsb (String.eqb s) KSAMPLER_CLASSES)
  | VList _ => Raise TypeError
  | VDict _ => Raise TypeError
  | _ => Ok false
  end.

Definition seed_path : list string := ["inputs"; "seed"].

Definition find_seed_fields (node : dict)
  : result (list (list string * Z)) :=
  match in_ksampler_classes (dict_get_none "class_type" node) with
  | Raise e => Raise e
  | Ok false => Ok []
  | Ok true =>
      match Dict.get "inputs" node with
      | Some (VDict ins) =>
          match Dict.get "seed" ins with
          | Some v =>
              match py_int v with
              | Some val => Ok [(seed_path, val)]
              | None => Ok []
              end
          | None => Ok []
          end
      | _ => Ok []
      end
  end.

(** [apply_seed]: walk [path[:-1]] from [node], then assign at
    [path[-1]] when the key is there.  The paths are those of
    [find_seed_fields], never empty. *)
Fixpoint apply_seed (node : value) (path : list string) (new_seed : Z)
  : value :=
  match path with
  | [] => node
  | [last] =>
      match node with
      | VDict d =>
          if Dict.mem last d then VDict (Dict.set last (VInt new_seed) d)
          else node
      | _ => node
      end
  | k :: rest =>
      match node with
      | VDict d =>
          match Dict.get k d with
          | Some cur => VDict (Dict.set k (apply_seed cur rest new_seed) d)
          | None => node
          end
      | _ => node
      end
  end.

(** *** [reseed_document] *)

(** The local variables of [reseed_document]. *)
Record locals : Type := {
  rnd : rng;
  seq_val : Z;
  job_seed : Z;
  nodes_touched : Z;
  seeds_changed : Z
}.

Definition set_rnd (r : rng) (st : locals) : locals :=
  {| rnd := r; seq_val := seq_val st; job_seed := job_seed st;
     nodes_touched := nodes_touched st;
     seeds_changed := seeds_changed st |}.

Definition set_seq_val (v : Z) (st : locals) : locals :=
  {| rnd := rnd st; seq_val := v; job_seed := job_seed st;
     nodes_touched := nodes_touched st;
     seeds_changed := seeds_changed st |}.

Definition set_job_seed (v : Z) (st : locals) : locals :=
  {| rnd := rnd st; seq_val := seq_val st; job_seed := v;
     nodes_touched := nodes_touched st;
     seeds_changed := seeds_changed st |}.

Definition incr_nodes_touched (st : locals) : locals :=
  {| rnd := rnd st; seq_val := seq_val st; job_seed := job_seed st;
     nodes_touched := nodes_touched st + 1;
     seeds_changed := seeds_changed st |}.

Definition incr_seeds_changed (st : locals) : locals :=
  {| rnd := rnd st; seq_val := seq_val st; job_seed := job_seed st;
     nodes_touched := nodes_touched st;
     seeds_changed := seeds_changed st + 1 |}.

Section Call.
Variables (mode : string) (start step : Z) (scope : string).

(** The closure [next_seq]. *)
Definition next_seq (st : locals) : Z * locals :=
  if String.eqb scope "job"
  then (job_seed st, set_job_seed (job_seed st + step) st)
  else (seq_val st, set_seq_val (seq_val st + step) st).

(** Lines 101-106. *)
Definition new_seed_for (st : locals) : result Z * locals :=
  if String.eqb mode "random"
  then let (v, r) := randint (rnd st) in (Ok v, set_rnd r st)
  else if String.eqb mode "increment"
  then let (v, st') := next_seq st in (Ok v, st')
  else (Raise ValueError, st).

(** The body of [for path, cur_seed in fields]; it mutates [node]. *)
Definition reseed_field (field : list string * Z)
  (ns : value * locals)
  : (list string * Z) * (value * locals) * outcome :=
  let (node, st) := ns in
  let (path, cur_seed) := field in
  match new_seed_for st with
  | (Raise e, st') => (field, (node, st'), Some e)
  | (Ok new_seed, st') =>
      if Z.eqb new_seed cur_seed
      then (field, (node, st'), None)
      else (field,
            (apply_seed node path new_seed, incr_seeds_changed st'),
            None)
  end.

(** The body of [for nid, node in iter_nodes_from_item(item)], on
    every entry of the dict: the generator passes over an entry that
    is not a dict. *)
Definition reseed_node (node : value) (st : locals)
  : value * locals * outcome :=
  match node with
  | VDict nd =>
      match find_seed_fields nd with
      | Raise e => (node, st, Some e)
      | Ok [] => (node, st, None)
      | Ok fields =>
          let '(_, (node', st'), o) :=
            for_each reseed_field fields
              (node, incr_nodes_touched st) in
          (node', st', o)
      end
  | _ => (node, st, None)
  end.

(** The item after its nodes were mutated. *)
Definition with_item_nodes (item : value) (nodes : dict) : value :=
  match item with
  | VList (a :: b :: VDict _ :: r) => VList (a :: b :: VDict nodes :: r)
  | VDict _ => VDict nodes
  | _ => item
  end.

(** The body of [for section, idx, item in iter_queue_items(...)], on
    every element of the section: the generator passes over an
    element of another shape. *)
Definition reseed_item (item : value) (st : locals)
  : value * locals * outcome :=
  match item_nodes item with
  | Some nodes =>
      let '(nodes', st', o) :=
        for_each_value reseed_node nodes (set_job_seed start st) in
      (with_item_nodes item nodes', st', o)
  | None => (item, st, None)
  end.

(** One section of [which]: the generator reads [doc.get(section, [])]
    when it reaches the section. *)
Definition reseed_section (section : string) (ds : dict * locals)
  : (dict * locals) * outcome :=
  let (doc, st) := ds in
  match Dict.get section doc with
  | Some (VList items) =>
      let '(items', st', o) := for_each reseed_item items st in
      ((Dict.set section (VList items') doc, st'), o)
  | _ => ((doc, st), None)
  end.

End Call.

(** The two modes [reseed_document] knows. *)
Definition valid_mode (mode : string) : Prop :=
  mode = "random" \/ mode = "increment".

(** [valid_sections]: [None] and an empty list are both falsy. *)
Definition valid_sections (only_sections : option (list string))
  : list string :=
  match only_sections with
  | None => ["queue_running"; "queue_pending"]
  | Some [] => ["queue_running"; "queue_pending"]
  | Some l => l
  end.

Definition initial_locals (start : Z) (rng_seed : option Z) : locals :=
  {| rnd := match rng_seed with
            | Some n => rng_seeded n
            | None => rng_unseeded
            end;
     seq_val := start; job_seed := start;
     nodes_touched := 0; seeds_changed := 0 |}.

(** [reseed_document]: the document after the call, and either the pair
    [(nodes_touched, seeds_changed)] returned or the exception raised. *)
Definition reseed_document (doc : dict) (mode : string) (start step : Z)
  (scope : string) (rng_seed : option Z)
  (only_sections : option (list string)) : dict * result (Z * Z) :=
  match
    for_keys (reseed_section mode start step scope)
      (valid_sections only_sections)
      (doc, initial_locals start rng_seed)
  with
  | ((doc', st), None) => (doc', Ok (nodes_touched st, seeds_changed st))
  | ((doc', _), Some e) => (doc', Raise e)
  end.

(** *** What a traversal sees

    The observations used to state the properties of
    [reseed_document]; all of them read the document through the two
    generators. *)

(** [node[k1][k2]...]; [None] where a key is missing. *)
Fixpoint read_path (node : value) (path : list string) : value :=
  match path with
  | [] => node
  | k :: rest =>
      match node with
      | VDict d =>
          match Dict.get k d with
          | Some v => read_path v rest
          | None => VNone
          end
      | _ => VNone
      end
  end.

(** The seed fields of a node: the value stored in each, and the
    integer [find_seed_fields] reads from it. *)
Definition node_fields (node : value) : list (value * Z) :=
  match node with
  | VDict nd =>
      match find_seed_fields nd with
      | Ok fs => map (fun f => (read_path node (fst f), snd f)) fs
      | Raise _ => []
      end
  | _ => []
  end.

Definition item_fields (item : value) : list (value * Z) :=
  flat_map (fun kv => node_fields (snd kv)) (iter_nodes_from_item item).

(** The seed fields of the traversal, one list for each job yielded. *)
Definition job_fields (doc : dict) (which : list string)
  : list (list (value * Z)) :=
  map (fun sij => item_fields (snd sij)) (iter_queue_items doc which).

(** The jobs an element of a section stands for: one, or none when
    [iter_queue_items] passes over it. *)
Definition item_jobs (item : value) : list (list (value * Z)) :=
  if yields_item item then [item_fields item] else [].

(** The seeds as integers, job by job, and in one sequence. *)
Definition job_seeds (doc : dict) (which : list string) : list (list Z) :=
  map (map snd) (job_fields doc which).

Definition seeds_in_order (doc : dict) (which : list string) : list Z :=
  concat (job_seeds doc which).

(** The nodes the two nested loops of [reseed_document] go through. *)
Definition visited_nodes (doc : dict) (which : list string) : list value :=
  flat_map (fun sij => map snd (iter_nodes_from_item (snd sij)))
    (iter_queue_items doc which).

Definition has_seed_field (node : value) : bool :=
  match node_fields node with [] => false | _ :: _ => true end.

Definition hashable (v : value) : bool :=
  match v with
  | VList _ => false
  | VDict _ => false
  | _ => true
  end.

(** [node.get("class_type")] can be looked up in a set. *)
Definition class_type_hashable (node : value) : bool :=
  match node with
  | VDict nd => hashable (dict_get_none "class_type" nd)
  | _ => true
  end.

(** What the visit of a node raises when the mode is unknown: the
    set lookup fails on a [class_type] that is not hashable, and a seed
    field reaches the [raise] of line 106. *)
Definition node_event (node : value) : outcome :=
  if negb (class_type_hashable node) then Some TypeError
  else if has_seed_field node then Some ValueError
  else None.

(** What a call with an unknown mode ends with, from the nodes in the
    order they are visited. *)
Definition unknown_mode_result (nodes : list value) : result (Z * Z) :=
  match first_outcome node_event nodes with
  | Some e => Raise e
  | None => Ok (0, 0)
  end.

(** *** The sequence state machine, on the list of seed fields *)

(** [start, start + step, ...], [n] terms. *)
Fixpoint arithmetic (start step : Z) (n : nat) : list Z :=
  match n with
  | O => []
  | S k => start :: arithmetic (start + step) step k
  end.

Section Sequence.
Variables (mode : string) (start step : Z) (scope : string).

(** The next seed of a valid mode. *)
Definition draw (st : locals) : Z * locals :=
  if String.eqb mode "random"
  then let (v, r) := randint (rnd st) in (v, set_rnd r st)
  else next_seq step scope st.

(** The write policy on one field. *)
Definition written (field : value * Z) (new_seed : Z) : value * Z :=
  if Z.eqb new_seed (snd field) then field
  else (VInt new_seed, new_seed).

(** The fields of one job after the loop over its nodes, and the
    locals. *)
Fixpoint assign (fields : list (value * Z)) (st : locals)
  : list (value * Z) * locals :=
  match fields with
  | [] => ([], st)
  | field :: rest =>
      let (new_seed, st1) := draw (incr_nodes_touched st) in
      let st2 :=
        if Z.eqb new_seed (snd field) then st1
        else incr_seeds_changed st1 in
      let (rest', st3) := assign rest st2 in
      (written field new_seed :: rest', st3)
  end.

(** The same over the jobs: [job_seed] restarts at each job. *)
Fixpoint assign_jobs (jobs : list (list (value * Z))) (st : locals)
  : list (list (value * Z)) * locals :=
  match jobs with
  | [] => ([], st)
  | job :: rest =>
      let (job', st1) := assign job (set_job_seed start st) in
      let (rest', st2) := assign_jobs rest st1 in
      (job' :: rest', st2)
  end.
End Sequence.

(** The write policy as a relation between a field before and after
    the call: left as it was, or holding a new integer that is not the
    one read from it. *)
Definition write_policy (old new : value * Z) : Prop :=
  (snd new = snd old /\ fst new = fst old) \/
  (snd new <> snd old /\ fst new = VInt (snd new)).

(** Two states of the locals with the same counters. *)
Definition same_counters (st st' : locals) : Prop :=
  nodes_touched st' = nodes_touched st
  /\ seeds_changed st' = seeds_changed st.

(** The number of positions at which two lists of seeds differ. *)
Fixpoint count_changed (old new : list Z) : nat :=
  match old, new with
  | a :: r, b :: r' =>
      ((if Z.eqb a b then 0 else 1) + count_changed r r')%nat
  | _, _ => O
  end.

End WithRuntime.

End Reseed.

(** A runtime for the worked examples: decimal digits for [int(s)], and a
    linear congruential generator in place of the Mersenne Twister. *)
Module ExampleRuntime.

Fixpoint digits_value (acc : Z) (s : string) : option Z :=
  match s with
  | "" => Some acc
  | String c r =>
      if Reframe.is_digit c
      then digits_value (10 * acc + (Z.of_nat (nat_of_ascii c) - 48)) r
      else None
  end.

Definition int_of_digits (s : string) : option Z :=
  match s with
  | "" => None
  | _ => digits_value 0 s
  end.

Definition lcg (x : Z) : Z * Z :=
  let y := (1103515245 * x + 12345) mod 2147483648 in (y, y).

#[export] Instance runtime : PyRuntime := {|
  int_of_str := int_of_digits;
  rng := Z;
  rng_seeded := fun n => n;
  rng_unseeded := 0;
  randint := lcg
|}.

End ExampleRuntime.


(** ** Documents used in the examples *)

Module Examples.

Definition sampler (seed : Z) : value :=
  VDict [("class_type", VStr "KSampler");
         ("inputs", VDict [("seed", VInt seed); ("steps", VInt 20)])].

Definition job (graph : dict) : value :=
  VList [VInt 0; VStr "id"; VDict graph].

(** Two jobs with two sampler nodes each. *)
Definition two_sampler_jobs : dict :=
  [("queue_pending",
    VList [job [("3", sampler 7); ("4", sampler 15)];
           job [("3", sampler 7); ("4", sampler 8)]])].

(** One job saving a video under the prefix [clip]. *)
Definition save_video_queue : dict :=
  [("queue_pending",
    VList [job [("9", VDict [("class_type", VStr "SaveVideo");
                             ("inputs",
                              VDict [("filename_prefix", VStr "clip")])])]])].

(** A job whose index 2 is [null] and whose metadata mirrors a save
    node. *)
Definition meta_only_job : list value :=
  [VInt 0; VStr "id"; VNone;
   VDict [("extra_pnginfo",
           VDict [("workflow",
                   VDict [("nodes",
                           VList [VDict [("type", VStr "SaveVideo");
                                         ("widgets_values",
                                          VList [VStr "clip"])]])])])]].

(** A node map with one sizing node, used as a job by itself. *)
Definition sizing_graph : dict :=
  [("5", VDict [("class_type", VStr "EmptyHunyuanLatentVideo");
                ("inputs", VDict [("length", VInt 81)])])].

Definition bare_map_queue : dict :=
  [("queue_pending", VList [VDict sizing_graph])].

(** A node map with an entry that is a number. *)
Definition scalar_node_queue : dict :=
  [("queue_pending", VList [job [("1", VInt 5)]])].

End Examples.

(** ** Observations on nodes, jobs and documents *)

Module Observe.

(** [node["inputs"]] where it is a dict, and no input otherwise. *)
Definition node_inputs (node : dict) : dict :=
  match Dict.get "inputs" node with
  | Some (VDict ins) => ins
  | _ => []
  end.

(** [inputs] is absent from the node, or is a dict. *)
Definition inputs_usable (node : dict) : bool :=
  match Dict.get "inputs" node with
  | Some (VDict _) => true
  | Some _ => false
  | None => true
  end.

Definition is_sizing_type (v : value) : bool :=
  eq_str v "EmptyHunyuanLatentVideo".

(** A node of the canonical graph that is a dict and whose [class_type]
    is none of the three the rewriter looks for. *)
Definition other_class_node (v : value) : bool :=
  match v with
  | VDict nd =>
      (negb (is_sizing_type (dict_get_none "class_type" nd))
       && negb (Reframe.is_save_type (dict_get_none "class_type" nd)))%bool
  | _ => false
  end.

(** The keys of a dict, in order. *)
Definition keys (d : dict) : list string := map fst d.

End Observe.

Module ObserveJobs.
Import Observe.

(** [meta["extra_pnginfo"]["workflow"]["nodes"]] where the path is there
    and ends in a list; no node otherwise. *)
Definition meta_nodes (meta : dict) : list value :=
  match Dict.get "extra_pnginfo" meta with
  | Some (VDict ep) =>
      match Dict.get "workflow" ep with
      | Some (VDict wf) =>
          match Dict.get "nodes" wf with
          | Some (VList nodes) => nodes
          | _ => []
          end
      | _ => []
      end
  | _ => []
  end.

(** The nodes of the graph of a list-shaped job. *)
Definition job_graph_nodes (job : value) : list value :=
  match job with
  | VList (_ :: _ :: VDict graph :: _) => map snd graph
  | _ => []
  end.

(** The nodes of the UI mirror of a list-shaped job. *)
Definition job_mirror_nodes (job : value) : list value :=
  match job with
  | VList (_ :: _ :: _ :: VDict meta :: _) => meta_nodes meta
  | _ => []
  end.

(** The jobs of the three sections the rewriter goes through. *)
Definition jobs_in (data : dict) (key : string) : list value :=
  match Dict.get key data with
  | Some (VList arr) => arr
  | _ => []
  end.

Definition all_jobs (data : dict) : list value :=
  flat_map (jobs_in data) Reframe.known_queues.

(** A node of the canonical graph agrees with [frames]: when it is of the
    sizing type its [length] input is [frames]. *)
Definition canonical_sized (frames : Z) (node : value) : Prop :=
  forall nd, node = VDict nd ->
    is_sizing_type (dict_get_none "class_type" nd) = true ->
    Dict.get "length" (node_inputs nd) = Some (VInt frames).

(** A node of the UI mirror agrees with [frames]: when it is of the sizing
    type and has three widgets or more, the widget at index 2 is [frames]. *)
Definition mirror_sized (frames : Z) (node : value) : Prop :=
  forall nd wv, node = VDict nd ->
    is_sizing_type (dict_get_none "type" nd) = true ->
    Dict.get "widgets_values" nd = Some (VList wv) ->
    (3 <= length wv)%nat ->
    nth_error wv 2 = Some (VInt frames).

(** Both views of a job agree with [frames]. *)
Definition job_sized (frames : Z) (job : value) : Prop :=
  Forall (canonical_sized frames) (job_graph_nodes job)
  /\ Forall (mirror_sized frames) (job_mirror_nodes job).

End ObserveJobs.

Module ObserveSeeds.
Import Reseed.

(** Every key of [path] is there, from [node] down. *)
Fixpoint path_exists (node : value) (path : list string) : bool :=
  match path with
  | [] => true
  | k :: rest =>
      match node with
      | VDict d =>
          match Dict.get k d with
          | Some v => path_exists v rest
          | None => false
          end
      | _ => false
      end
  end.

Section WithRuntime.
Context {RT : PyRuntime}.

(** One step of a loop of [reseed_document] on an element [x], as the
    counters see it: they grow, [seeds_changed] by no more than
    [nodes_touched], and an element that changed is counted. *)
Definition step_ok {A : Type} (x : A) (st : locals) (x' : A) (st' : locals)
  : Prop :=
  seeds_changed st <= seeds_changed st'
  /\ seeds_changed st' - seeds_changed st <=
     nodes_touched st' - nodes_touched st
  /\ (seeds_changed st' = seeds_changed st -> x' = x).

(** No visited node has a seed field, and no [class_type] fails the set
    lookup. *)
Definition no_seed_fields (doc : dict) (which : list string) : bool :=
  forallb (fun n => (class_type_hashable n && negb (has_seed_field n))%bool)
    (visited_nodes doc which).

(** Two states of the locals that a run in random mode cannot tell apart,
    and the same for increment mode. *)
Definition same_random (st st' : locals) : Prop :=
  rnd st = rnd st'
  /\ nodes_touched st = nodes_touched st'
  /\ seeds_changed st = seeds_changed st'.

Definition same_sequence (st st' : locals) : Prop :=
  seq_val st = seq_val st'
  /\ job_seed st = job_seed st'
  /\ nodes_touched st = nodes_touched st'
  /\ seeds_changed st = seeds_changed st'.

End WithRuntime.

End ObserveSeeds.

Module MoreExamples.

(** A job with a sizing node in its graph and one in its UI mirror. *)
Definition sizing_meta : dict :=
  [("extra_pnginfo",
    VDict [("workflow",
            VDict [("nodes",
                    VList [VDict [("type", VStr "EmptyHunyuanLatentVideo");
                                  ("widgets_values",
                                   VList [VInt 848; VInt 480; VInt 81;
                                          VInt 1])]])])]);
   ("client_id", VStr "ui")].

Definition sizing_job : list value :=
  [VInt 0; VStr "id"; VDict Examples.sizing_graph; VDict sizing_meta;
   VList [VStr "12"]].

Definition sizing_queue : dict :=
  [("queue_running", VList []);
   ("queue_pending", VList [VList sizing_job]);
   ("client", VStr "ui")].

(** A sampler node with a second input. *)
Definition sampler_node : dict :=
  [("class_type", VStr "KSampler");
   ("inputs", VDict [("seed", VInt 7); ("steps", VInt 20)])].

(** A queue whose seeds are already 7 and 15. *)
Definition sequenced_queue : dict :=
  [("queue_pending",
    VList [Examples.job [("3", Examples.sampler 7);
                         ("4", Examples.sampler 15)]])].

End MoreExamples.

(** * Properties *)

(** ** Dicts and loops *)

Module DictFacts.

Section Assoc.
Context {A : Type}.
Implicit Types (d : list (string * A)) (k : string) (v : A).

Lemma get_set_same k v d : Dict.get k (Dict.set k v d) = Some v.
Proof.
  induction d as [|[k' v'] r IH]; simpl.
  - now rewrite String.eqb_refl.
  - destruct (String.eqb k k') eqn:E; simpl; rewrite E; auto.
Qed.

Lemma get_set_other k k' v d :
  k <> k' -> Dict.get k' (Dict.set k v d) = Dict.get k' d.
Proof.
  intros Hne. induction d as [|[k0 v0] r IH]; simpl.
  - destruct (String.eqb k' k) eqn:E; auto.
    apply String.eqb_eq in E. congruence.
  - destruct (String.eqb k k0) eqn:E; simpl.
    + apply String.eqb_eq in E. subst k0.
      destruct (String.eqb k' k) eqn:E'; auto.
      apply String.eqb_eq in E'. congruence.
    + now rewrite IH.
Qed.

Lemma set_get_id k v d : Dict.get k d = Some v -> Dict.set k v d = d.
Proof.
  induction d as [|[k' v'] r IH]; simpl; [discriminate|].
  destruct (String.eqb k k') eqn:E.
  - intros [= ->]. reflexivity.
  - intros H. now rewrite IH.
Qed.
End Assoc.

End DictFacts.

Module LoopFacts.

Section ForEach.
Context {A S : Type}.
Variable body : A -> S -> A * S * outcome.

(** A body that changes nothing and never raises leaves the list and
    the state as they were. *)
Lemma for_each_unchanged (P : A -> Prop) (l : list A) (s : S) :
  (forall x s, P x -> body x s = (x, s, None)) ->
  Forall P l ->
  for_each body l s = (l, s, None).
Proof.
  intros Hb HP. induction HP as [|x r Hx _ IH]; simpl; auto.
  now rewrite (Hb x s Hx), IH.
Qed.
End ForEach.

(** The loop against a specification on an observation of the elements:
    when each step of the body agrees with [spec] on what [view] shows of
    its element, the whole loop agrees with [spec] on the views laid end
    to end. *)
Section View.
Context {A S B : Type}.
Variable body : A -> S -> A * S * outcome.
Variable view : A -> list B.
Variable spec : list B -> S -> list B * S.
Variable ok : A -> Prop.

Hypothesis spec_app : forall l1 l2 s,
  spec (l1 ++ l2) s =
  ((fst (spec l1 s) ++ fst (spec l2 (snd (spec l1 s))))%list,
   snd (spec l2 (snd (spec l1 s)))).
Hypothesis spec_nil : forall s, spec [] s = ([], s).
Hypothesis body_spec : forall x s, ok x ->
  exists x', body x s = (x', snd (spec (view x) s), None)
             /\ view x' = fst (spec (view x) s).

Lemma for_each_view (l : list A) (s : S) :
  Forall ok l ->
  exists l',
    for_each body l s = (l', snd (spec (flat_map view l) s), None)
    /\ flat_map view l' = fst (spec (flat_map view l) s)
    /\ length l' = length l.
Proof.
  intros Hok. revert s.
  induction Hok as [|x r Hx _ IH]; intros s; simpl.
  - exists []. now rewrite spec_nil.
  - destruct (body_spec x s Hx) as (x' & Hb & Hv).
    destruct (IH (snd (spec (view x) s))) as (r' & Hr & Hvr & Hl).
    exists (x' :: r'). rewrite Hb, Hr, spec_app. simpl.
    rewrite Hv, Hvr. auto.
Qed.
End View.

(** A loop whose body leaves every element as it is: the list is
    unchanged, and the loop ends with the first exception. *)
Section Events.
Context {A S : Type}.
Variable body : A -> S -> A * S * outcome.
Variable ev : A -> outcome.
Variable R : S -> S -> Prop.

Hypothesis R_refl : forall s, R s s.
Hypothesis R_trans : forall s1 s2 s3, R s1 s2 -> R s2 s3 -> R s1 s3.
Hypothesis body_ev : forall x s,
  exists s', body x s = (x, s', ev x) /\ (ev x = None -> R s s').

Lemma for_each_first_outcome (l : list A) (s : S) :
  exists s',
    for_each body l s = (l, s', first_outcome ev l)
    /\ (first_outcome ev l = None -> R s s').
Proof.
  revert s. induction l as [|x r IH]; intros s; simpl.
  - exists s. auto.
  - destruct (body_ev x s) as (s1 & Hb & HR). rewrite Hb.
    destruct (ev x) as [e|].
    + exists s1. split; [reflexivity | discriminate].
    + destruct (IH s1) as (s2 & Hr & HR2). rewrite Hr.
      exists s2. split; [reflexivity|]. eauto.
Qed.
End Events.

Lemma first_outcome_app {A : Type} (ev : A -> outcome) (l1 l2 : list A) :
  first_outcome ev (l1 ++ l2) =
  match first_outcome ev l1 with
  | Some e => Some e
  | None => first_outcome ev l2
  end.
Proof.
  induction l1 as [|x r IH]; simpl; auto. now destruct (ev x).
Qed.

Lemma first_outcome_map {A B : Type} (f : A -> B) (ev : B -> outcome)
  (l : list A) :
  first_outcome ev (map f l) = first_outcome (fun x => ev (f x)) l.
Proof.
  induction l as [|x r IH]; simpl; auto. now rewrite IH.
Qed.

Lemma first_outcome_flat_map {A B : Type} (f : A -> list B)
  (ev : B -> outcome) (l : list A) :
  first_outcome ev (flat_map f l) =
  first_outcome (fun x => first_outcome ev (f x)) l.
Proof.
  induction l as [|x r IH]; simpl; auto.
  now rewrite first_outcome_app, IH.
Qed.

End LoopFacts.

(** ** The seed reassigner *)

Module ReseedFacts.
Import Reseed DictFacts LoopFacts.

Section WithRuntime.
Context {RT : PyRuntime}.

(** *** One node *)

Lemma find_seed_fields_cases (nd : dict) :
  hashable (dict_get_none "class_type" nd) = true ->
  find_seed_fields nd = Ok [] \/
  exists ins v cur,
    Dict.get "inputs" nd = Some (VDict ins) /\
    Dict.get "seed" ins = Some v /\
    py_int v = Some cur /\
    in_ksampler_classes (dict_get_none "class_type" nd) = Ok true /\
    find_seed_fields nd = Ok [(seed_path, cur)].
Proof.
  intros Hh. unfold find_seed_fields.
  destruct (in_ksampler_classes (dict_get_none "class_type" nd))
    as [[|]|e] eqn:Hc.
  - destruct (Dict.get "inputs" nd) as [[| | | | |l|ins]|] eqn:Hi; auto.
    destruct (Dict.get "seed" ins) as [v|] eqn:Hs; auto.
    destruct (py_int v) as [cur|] eqn:Hp; auto.
    right. exists ins, v, cur. auto.
  - auto.
  - destruct (dict_get_none "class_type" nd); simpl in *; discriminate.
Qed.

Lemma new_seed_for_valid mode step scope st :
  valid_mode mode ->
  new_seed_for mode step scope st =
  (Ok (fst (draw mode step scope st)), snd (draw mode step scope st)).
Proof.
  intros [-> | ->]; unfold new_seed_for, draw; simpl.
  - now destruct (randint (rnd st)).
  - now destruct (next_seq step scope st).
Qed.

(** The node after [apply_seed] has its seed field holding the new
    integer, and nothing else of what [find_seed_fields] reads moved. *)
Lemma apply_seed_fields nd ins v new_seed :
  Dict.get "inputs" nd = Some (VDict ins) ->
  Dict.get "seed" ins = Some v ->
  in_ksampler_classes (dict_get_none "class_type" nd) = Ok true ->
  apply_seed (VDict nd) seed_path new_seed =
    VDict (Dict.set "inputs"
             (VDict (Dict.set "seed" (VInt new_seed) ins)) nd)
  /\ node_fields (apply_seed (VDict nd) seed_path new_seed) =
     [(VInt new_seed, new_seed)].
Proof.
  intros Hi Hs Hc.
  assert (E : apply_seed (VDict nd) seed_path new_seed =
              VDict (Dict.set "inputs"
                       (VDict (Dict.set "seed" (VInt new_seed) ins)) nd)).
  { unfold seed_path. simpl. rewrite Hi. unfold Dict.mem. now rewrite Hs. }
  split; [exact E|]. rewrite E.
  unfold node_fields, find_seed_fields, dict_get_none.
  rewrite get_set_other by discriminate.
  unfold dict_get_none in Hc. rewrite Hc.
  rewrite get_set_same, get_set_same. simpl.
  now rewrite get_set_same, get_set_same.
Qed.

Lemma reseed_node_assign mode step scope node st :
  valid_mode mode ->
  class_type_hashable node = true ->
  exists node',
    reseed_node mode step scope node st =
      (node', snd (assign mode step scope (node_fields node) st), None)
    /\ node_fields node' =
       fst (assign mode step scope (node_fields node) st).
Proof.
  intros Hm Hh. destruct node as [| | | | | |nd];
    try (eexists; split; reflexivity).
  simpl in Hh.
  destruct (find_seed_fields_cases nd Hh)
    as [Hf | (ins & v & cur & Hi & Hs & Hp & Hc & Hf)].
  - exists (VDict nd). unfold reseed_node, node_fields. now rewrite Hf.
  - unfold reseed_node, node_fields. rewrite Hf. simpl.
    rewrite (new_seed_for_valid _ _ _ _ Hm).
    destruct (draw mode step scope (incr_nodes_touched st))
      as [new_seed st1] eqn:Hd.
    simpl. unfold written. simpl.
    destruct (Z.eqb new_seed cur) eqn:He.
    + exists (VDict nd). split; [reflexivity|].
      now rewrite Hf.
    + destruct (apply_seed_fields nd ins v new_seed Hi Hs Hc) as [_ Hn].
      eexists. split; [reflexivity|]. exact Hn.
Qed.

(** *** One job *)

Lemma assign_app mode step scope l1 l2 st :
  assign mode step scope (l1 ++ l2) st =
  ((fst (assign mode step scope l1 st) ++
    fst (assign mode step scope l2 (snd (assign mode step scope l1 st))))%list,
   snd (assign mode step scope l2 (snd (assign mode step scope l1 st)))).
Proof.
  revert st. induction l1 as [|f r IH]; intros st; simpl.
  - now destruct (assign mode step scope l2 st).
  - destruct (draw mode step scope (incr_nodes_touched st)) as [n st1].
    rewrite IH.
    destruct (assign mode step scope r) as [r' st3]. reflexivity.
Qed.

Lemma assign_jobs_app mode start step scope l1 l2 st :
  assign_jobs mode start step scope (l1 ++ l2) st =
  ((fst (assign_jobs mode start step scope l1 st) ++
    fst (assign_jobs mode start step scope l2
           (snd (assign_jobs mode start step scope l1 st))))%list,
   snd (assign_jobs mode start step scope l2
          (snd (assign_jobs mode start step scope l1 st)))).
Proof.
  revert st. induction l1 as [|j r IH]; intros st; simpl.
  - now destruct (assign_jobs mode start step scope l2 st).
  - destruct (assign mode step scope j (set_job_seed start st))
      as [j' st1].
    rewrite IH.
    destruct (assign_jobs mode start step scope r st1) as [r' st2].
    reflexivity.
Qed.

Lemma node_fields_not_dict (v : value) :
  isinstance_dict v = false -> node_fields v = [].
Proof. destruct v; simpl; auto; discriminate. Qed.

Lemma fields_of_entries (nodes : dict) :
  flat_map (fun kv => node_fields (snd kv))
    (filter (fun kv => isinstance_dict (snd kv)) nodes) =
  flat_map (fun kv => node_fields (snd kv)) nodes.
Proof.
  induction nodes as [|[k v] r IH]; simpl; auto.
  destruct (isinstance_dict v) eqn:E; simpl; rewrite IH; auto.
  now rewrite (node_fields_not_dict v E).
Qed.

Lemma hashable_entries (nodes : dict) :
  Forall (fun n => class_type_hashable n = true)
    (map snd (filter (fun kv => isinstance_dict (snd kv)) nodes)) ->
  Forall (fun kv => class_type_hashable (snd kv) = true) nodes.
Proof.
  induction nodes as [|[k v] r IH]; simpl; intros H; constructor.
  - destruct (isinstance_dict v) eqn:E.
    + now inversion H.
    + destruct v; simpl in *; auto; discriminate.
  - apply IH. destruct (isinstance_dict v); auto. now inversion H.
Qed.

Lemma item_nodes_with item nodes nodes' :
  item_nodes item = Some nodes ->
  item_nodes (with_item_nodes item nodes') = Some nodes'.
Proof.
  destruct item as [| | | | |l|d]; try discriminate.
  - destruct l as [|a [|b [|c r]]]; try discriminate.
    destruct c; try discriminate. reflexivity.
  - reflexivity.
Qed.

Lemma yields_item_nodes item :
  yields_item item = match item_nodes item with
                     | Some _ => true
                     | None => false
                     end.
Proof.
  unfold yields_item, item_nodes.
  destruct (standard_nodes item); auto. now destruct item.
Qed.

Lemma reseed_item_assign mode start step scope item st :
  valid_mode mode ->
  Forall (fun n => class_type_hashable n = true)
    (map snd (iter_nodes_from_item item)) ->
  exists item',
    reseed_item mode start step scope item st =
      (item',
       snd (assign_jobs mode start step scope (item_jobs item) st), None)
    /\ item_jobs item' =
       fst (assign_jobs mode start step scope (item_jobs item) st).
Proof.
  intros Hm Hh.
  unfold reseed_item, item_jobs, item_fields, iter_nodes_from_item in *.
  rewrite yields_item_nodes.
  destruct (item_nodes item) as [nodes|] eqn:Hn.
  - destruct (for_each_view
                (on_value (reseed_node mode step scope))
                (fun kv => node_fields (snd kv))
                (assign mode step scope)
                (fun kv => class_type_hashable (snd kv) = true)
                (assign_app mode step scope)
                (fun s => eq_refl)) with (l := nodes)
                (s := set_job_seed start st)
      as (nodes' & Hr & Hv & _).
    + intros [k v] s Hok. simpl in Hok.
      destruct (reseed_node_assign mode step scope v s Hm Hok)
        as (v' & Hb & Hf).
      exists (k, v'). unfold on_value. simpl. now rewrite Hb.
    + now apply hashable_entries.
    + unfold for_each_value. rewrite Hr.
      exists (with_item_nodes item nodes'). simpl.
      rewrite fields_of_entries.
      destruct (assign mode step scope
                  (flat_map (fun kv => node_fields (snd kv)) nodes)
                  (set_job_seed start st)) as [fs st1] eqn:Ha.
      simpl in *. split; [reflexivity|].
      rewrite yields_item_nodes, (item_nodes_with _ _ _ Hn).
      now rewrite fields_of_entries, Hv.
  - exists item. simpl. rewrite yields_item_nodes, Hn. auto.
Qed.

(** *** One section, then all of them *)

Lemma section_jobs doc section items :
  Dict.get section doc = Some (VList items) ->
  map (fun sij => item_fields (snd sij)) (section_items doc section) =
  flat_map item_jobs items.
Proof.
  intros Hg. unfold section_items. rewrite Hg. clear Hg.
  generalize 0%nat. induction items as [|x r IH]; intros n; simpl; auto.
  unfold item_jobs at 1.
  destruct (yields_item x); simpl; now rewrite IH.
Qed.

Lemma iter_nodes_not_yielded item :
  yields_item item = false -> iter_nodes_from_item item = [].
Proof.
  rewrite yields_item_nodes. unfold iter_nodes_from_item.
  now destruct (item_nodes item).
Qed.

Lemma section_nodes doc section items :
  Dict.get section doc = Some (VList items) ->
  flat_map (fun sij : string * nat * value =>
              map snd (iter_nodes_from_item (snd sij)))
    (section_items doc section) =
  flat_map (fun item => map snd (iter_nodes_from_item item)) items.
Proof.
  intros Hg. unfold section_items. rewrite Hg. clear Hg.
  generalize 0%nat. induction items as [|x r IH]; intros n; simpl; auto.
  destruct (yields_item x) eqn:Hy; simpl; rewrite IH; auto.
  now rewrite (iter_nodes_not_yielded x Hy).
Qed.

Lemma iter_queue_items_agree doc1 doc2 which :
  (forall k, In k which -> Dict.get k doc1 = Dict.get k doc2) ->
  iter_queue_items doc1 which = iter_queue_items doc2 which.
Proof.
  intros H. unfold iter_queue_items.
  induction which as [|s r IH]; simpl; auto.
  rewrite IH by (intros k Hk; apply H; now right).
  unfold section_items. rewrite (H s) by now left. reflexivity.
Qed.

Lemma reseed_items_assign mode start step scope items st :
  valid_mode mode ->
  Forall (fun n => class_type_hashable n = true)
    (flat_map (fun item => map snd (iter_nodes_from_item item)) items) ->
  exists items',
    for_each (reseed_item mode start step scope) items st =
      (items',
       snd (assign_jobs mode start step scope
              (flat_map item_jobs items) st), None)
    /\ flat_map item_jobs items' =
       fst (assign_jobs mode start step scope
              (flat_map item_jobs items) st).
Proof.
  intros Hm Hh.
  destruct (for_each_view
              (reseed_item mode start step scope)
              item_jobs
              (assign_jobs mode start step scope)
              (fun item =>
                 Forall (fun n => class_type_hashable n = true)
                   (map snd (iter_nodes_from_item item)))
              (assign_jobs_app mode start step scope)
              (fun s => eq_refl)) with (l := items) (s := st)
    as (items' & Hr & Hv & _).
  - intros x s Hx. now apply reseed_item_assign.
  - induction items as [|x r IH]; constructor; simpl in Hh;
      apply Forall_app in Hh; tauto.
  - exists items'. auto.
Qed.

(** The sections are distinct, so a section is read as it was in the
    document given, and is written once. *)
Lemma reseed_sections_assign mode start step scope which :
  valid_mode mode ->
  NoDup which ->
  forall doc st,
    Forall (fun n => class_type_hashable n = true)
      (visited_nodes doc which) ->
    exists doc',
      for_keys (reseed_section mode start step scope) which (doc, st) =
        ((doc',
          snd (assign_jobs mode start step scope
                 (job_fields doc which) st)), None)
      /\ job_fields doc' which =
         fst (assign_jobs mode start step scope (job_fields doc which) st)
      /\ (forall k, ~ In k which -> Dict.get k doc' = Dict.get k doc).
Proof.
  intros Hm Hnd. induction Hnd as [|s rest Hs Hnd IH]; intros doc st Hh.
  - exists doc. simpl. auto.
  - unfold visited_nodes, job_fields, iter_queue_items in *.
    simpl in Hh. rewrite flat_map_app in Hh.
    apply Forall_app in Hh. destruct Hh as [Hh1 Hh2].
    cbn [for_keys flat_map]. rewrite map_app, assign_jobs_app.
    set (jobs_s := map (fun sij : string * nat * value =>
                          item_fields (snd sij)) (section_items doc s)).
    assert (Hstep : exists doc1,
      reseed_section mode start step scope s (doc, st) =
        ((doc1, snd (assign_jobs mode start step scope jobs_s st)), None)
      /\ map (fun sij : string * nat * value => item_fields (snd sij))
           (section_items doc1 s) =
         fst (assign_jobs mode start step scope jobs_s st)
      /\ (forall k, k <> s -> Dict.get k doc1 = Dict.get k doc)).
    { unfold reseed_section.
      destruct (Dict.get s doc) as [v|] eqn:Hg.
      - destruct v as [| | | | |items|d];
          try solve [exists doc; subst jobs_s; unfold section_items;
                     rewrite Hg; simpl; auto].
        rewrite (section_nodes doc s items Hg) in Hh1.
        destruct (reseed_items_assign mode start step scope items st
                    Hm Hh1) as (items' & Hr & Hv).
        exists (Dict.set s (VList items') doc).
        subst jobs_s. rewrite (section_jobs doc s items Hg), Hr.
        split; [reflexivity|]. split.
        + rewrite (section_jobs _ s items') by apply get_set_same.
          exact Hv.
        + intros k Hk. apply get_set_other. congruence.
      - exists doc. subst jobs_s. unfold section_items.
        rewrite Hg. simpl. auto. }
    destruct Hstep as (doc1 & Hr1 & Hv1 & Hfr1).
    rewrite Hr1.
    assert (Hag : iter_queue_items doc1 rest = iter_queue_items doc rest).
    { apply iter_queue_items_agree. intros k Hk. apply Hfr1.
      intros ->. contradiction. }
    unfold iter_queue_items in Hag.
    destruct (IH doc1 (snd (assign_jobs mode start step scope jobs_s st)))
      as (doc' & Hr & Hv & Hfr).
    { now rewrite Hag. }
    rewrite Hag in Hr, Hv.
    exists doc'. rewrite Hr. split; [reflexivity|]. split.
    + cbn [fst]. rewrite map_app, Hv. f_equal.
      unfold section_items. rewrite (Hfr s Hs).
      unfold section_items in Hv1. exact Hv1.
    + intros k Hk. rewrite Hfr by (intros Hin; apply Hk; now right).
      apply Hfr1. intros ->. apply Hk. now left.
Qed.

(** *** The sequence state machine *)

Lemma arithmetic_app a step n m :
  arithmetic a step (n + m) =
  (arithmetic a step n ++ arithmetic (a + step * Z.of_nat n) step m)%list.
Proof.
  revert a. induction n as [|n IH]; intros a.
  - simpl. f_equal. lia.
  - cbn [arithmetic Nat.add app]. rewrite IH. do 3 f_equal. lia.
Qed.

Lemma arithmetic_length a step n : length (arithmetic a step n) = n.
Proof. revert a. induction n; intros a; simpl; auto. Qed.

Lemma snd_written field new_seed : snd (written field new_seed) = new_seed.
Proof.
  unfold written. destruct (Z.eqb new_seed (snd field)) eqn:E; auto.
  apply Z.eqb_eq in E. congruence.
Qed.

Lemma assign_length mode step scope fields st :
  length (fst (assign mode step scope fields st)) = length fields.
Proof.
  revert st. induction fields as [|f r IH]; intros st; simpl; auto.
  destruct (draw mode step scope (incr_nodes_touched st)) as [n st1].
  match goal with |- context [assign _ _ _ r ?s] => specialize (IH s);
    destruct (assign mode step scope r s) end.
  simpl in *. now rewrite IH.
Qed.

(** Global scope: the fields receive [seq_val], [seq_val + step], ... *)
Lemma assign_increment_global step scope fields st :
  String.eqb scope "job" = false ->
  map snd (fst (assign "increment" step scope fields st)) =
    arithmetic (seq_val st) step (length fields)
  /\ seq_val (snd (assign "increment" step scope fields st)) =
     seq_val st + step * Z.of_nat (length fields).
Proof.
  intros Hs. revert st. induction fields as [|f r IH]; intros st.
  - simpl. split; auto. lia.
  - cbn [assign]. unfold draw, next_seq. rewrite Hs. cbn [String.eqb].
    simpl.
    match goal with |- context [assign _ _ _ r ?s] =>
      destruct (IH s) as [IH1 IH2];
      destruct (assign "increment" step scope r s) as [r' st3] eqn:Ha end.
    simpl in *. rewrite snd_written, IH1, IH2.
    split.
    + f_equal. f_equal.
      destruct (Z.eqb (seq_val st) (snd f)); reflexivity.
    + destruct (Z.eqb (seq_val st) (snd f)); simpl; lia.
Qed.

Lemma assign_jobs_increment_global start step scope jobs st :
  String.eqb scope "job" = false ->
  concat (map (map snd)
            (fst (assign_jobs "increment" start step scope jobs st))) =
    arithmetic (seq_val st) step (length (concat jobs))
  /\ seq_val (snd (assign_jobs "increment" start step scope jobs st)) =
     seq_val st + step * Z.of_nat (length (concat jobs)).
Proof.
  intros Hs. revert st. induction jobs as [|j r IH]; intros st.
  - simpl. split; auto. lia.
  - cbn [assign_jobs concat].
    destruct (assign_increment_global step scope j
                (set_job_seed start st) Hs) as [H1 H2].
    destruct (assign "increment" step scope j (set_job_seed start st))
      as [j' st1].
    destruct (IH st1) as [IH1 IH2].
    destruct (assign_jobs "increment" start step scope r st1)
      as [r' st2].
    simpl in *. rewrite H1, IH1, IH2, H2, length_app, arithmetic_app.
    split; [reflexivity | lia].
Qed.

(** Job scope: the fields receive [job_seed], [job_seed + step], ... *)
Lemma assign_increment_job step fields st :
  map snd (fst (assign "increment" step "job" fields st)) =
    arithmetic (job_seed st) step (length fields).
Proof.
  revert st. induction fields as [|f r IH]; intros st; auto.
  cbn [assign]. unfold draw, next_seq. simpl.
  match goal with |- context [assign _ _ _ r ?s] =>
    specialize (IH s);
    destruct (assign "increment" step "job" r s) as [r' st3] end.
  simpl in *. rewrite snd_written, IH.
  destruct (Z.eqb (job_seed st) (snd f)); reflexivity.
Qed.

Lemma assign_jobs_increment_job start step jobs st :
  map (map snd) (fst (assign_jobs "increment" start step "job" jobs st)) =
  map (fun job => arithmetic start step (length job)) jobs.
Proof.
  revert st. induction jobs as [|j r IH]; intros st; auto.
  cbn [assign_jobs].
  pose proof (assign_increment_job step j (set_job_seed start st)) as H.
  destruct (assign "increment" step "job" j (set_job_seed start st))
    as [j' st1].
  specialize (IH st1).
  destruct (assign_jobs "increment" start step "job" r st1) as [r' st2].
  simpl in *. now rewrite H, IH.
Qed.

(** *** The counters *)

Lemma draw_counters mode step scope st :
  nodes_touched (snd (draw mode step scope st)) = nodes_touched st
  /\ seeds_changed (snd (draw mode step scope st)) = seeds_changed st.
Proof.
  unfold draw, next_seq.
  destruct (String.eqb mode "random").
  - now destruct (randint (rnd st)).
  - now destruct (String.eqb scope "job").
Qed.

Lemma count_changed_app (l1 l1' l2 l2' : list Z) :
  length l1 = length l1' ->
  count_changed (l1 ++ l2) (l1' ++ l2') =
  (count_changed l1 l1' + count_changed l2 l2')%nat.
Proof.
  revert l1'. induction l1 as [|a r IH]; intros [|b r'] H;
    try discriminate; simpl; auto.
  rewrite IH by (simpl in H; lia). lia.
Qed.

Lemma assign_counters mode step scope fields st :
  nodes_touched (snd (assign mode step scope fields st)) =
    nodes_touched st + Z.of_nat (length fields)
  /\ seeds_changed (snd (assign mode step scope fields st)) =
     seeds_changed st +
     Z.of_nat (count_changed (map snd fields)
                 (map snd (fst (assign mode step scope fields st))))
  /\ Forall2 write_policy fields (fst (assign mode step scope fields st)).
Proof.
  revert st. induction fields as [|f r IH]; intros st.
  - simpl. repeat split; auto; lia.
  - cbn [assign].
    destruct (draw_counters mode step scope (incr_nodes_touched st))
      as [Ht Hc].
    destruct (draw mode step scope (incr_nodes_touched st))
      as [n st1].
    simpl in Ht, Hc.
    match goal with |- context [assign _ _ _ r ?s] =>
      destruct (IH s) as (IH1 & IH2 & IH3);
      destruct (assign mode step scope r s) as [r' st3] end.
    cbn [fst snd map length count_changed] in *.
    rewrite snd_written, IH1, IH2. unfold written, write_policy.
    rewrite Z.eqb_sym.
    destruct (Z.eqb n (snd f)) eqn:E.
    + apply Z.eqb_eq in E. rewrite Z.eqb_sym, (proj2 (Z.eqb_eq _ _) E).
      repeat split; try lia. constructor; auto.
    + rewrite Z.eqb_sym, E. apply Z.eqb_neq in E.
      simpl. repeat split; try lia. constructor; auto.
Qed.

Lemma assign_jobs_counters mode start step scope jobs st :
  nodes_touched (snd (assign_jobs mode start step scope jobs st)) =
    nodes_touched st + Z.of_nat (length (concat jobs))
  /\ seeds_changed (snd (assign_jobs mode start step scope jobs st)) =
     seeds_changed st +
     Z.of_nat (count_changed (map snd (concat jobs))
                 (map snd (concat
                    (fst (assign_jobs mode start step scope jobs st)))))
  /\ Forall2 write_policy (concat jobs)
       (concat (fst (assign_jobs mode start step scope jobs st))).
Proof.
  revert st. induction jobs as [|j r IH]; intros st.
  - simpl. repeat split; auto; lia.
  - cbn [assign_jobs].
    destruct (assign_counters mode step scope j (set_job_seed start st))
      as (H1 & H2 & H3).
    pose proof (assign_length mode step scope j (set_job_seed start st))
      as Hl.
    destruct (assign mode step scope j (set_job_seed start st))
      as [j' st1].
    destruct (IH st1) as (IH1 & IH2 & IH3).
    destruct (assign_jobs mode start step scope r st1) as [r' st2].
    cbn [fst snd concat] in *.
    rewrite !map_app, count_changed_app, length_app
      by (now rewrite !length_map).
    rewrite IH1, IH2, H1, H2. simpl.
    repeat split; try lia. now apply Forall2_app.
Qed.

(** *** The whole call *)

Lemma reseed_document_assign doc mode start step scope rng_seed
  only_sections :
  valid_mode mode ->
  NoDup (valid_sections only_sections) ->
  forallb class_type_hashable
    (visited_nodes doc (valid_sections only_sections)) = true ->
  exists doc',
    reseed_document doc mode start step scope rng_seed only_sections =
      (doc',
       Ok (nodes_touched
             (snd (assign_jobs mode start step scope
                     (job_fields doc (valid_sections only_sections))
                     (initial_locals start rng_seed))),
           seeds_changed
             (snd (assign_jobs mode start step scope
                     (job_fields doc (valid_sections only_sections))
                     (initial_locals start rng_seed)))))
    /\ job_fields doc' (valid_sections only_sections) =
       fst (assign_jobs mode start step scope
              (job_fields doc (valid_sections only_sections))
              (initial_locals start rng_seed)).
Proof.
  intros Hm Hnd Hh.
  assert (Hh' : Forall (fun n => class_type_hashable n = true)
                  (visited_nodes doc (valid_sections only_sections))).
  { apply Forall_forall. intros n Hn.
    rewrite forallb_forall in Hh. now apply Hh. }
  destruct (reseed_sections_assign mode start step scope _ Hm Hnd doc
              (initial_locals start rng_seed) Hh')
    as (doc' & Hr & Hv & _).
  exists doc'. unfold reseed_document. rewrite Hr. auto.
Qed.

Lemma seeds_of_fields (jobs : list (list (value * Z))) :
  concat (map (map snd) jobs) = map snd (concat jobs).
Proof. symmetry. apply concat_map. Qed.

Lemma node_fields_short node : (length (node_fields node) <= 1)%nat.
Proof.
  destruct node as [| | | | | |nd]; simpl; auto.
  unfold find_seed_fields.
  destruct (in_ksampler_classes (dict_get_none "class_type" nd))
    as [[|]|e]; simpl; auto.
  destruct (Dict.get "inputs" nd) as [[| | | | |l|ins]|]; simpl; auto.
  destruct (Dict.get "seed" ins) as [v|]; simpl; auto.
  destruct (py_int v); simpl; auto.
Qed.

Lemma node_fields_int node :
  Forall (fun f => py_int (fst f) = Some (snd f)) (node_fields node).
Proof.
  destruct node as [| | | | | |nd]; simpl; auto.
  unfold find_seed_fields.
  destruct (in_ksampler_classes (dict_get_none "class_type" nd))
    as [[|]|e]; simpl; auto.
  destruct (Dict.get "inputs" nd) as [[| | | | |l|ins]|] eqn:Hi;
    simpl; auto.
  destruct (Dict.get "seed" ins) as [v|] eqn:Hs; simpl; auto.
  destruct (py_int v) eqn:Hp; simpl; auto.
  constructor; auto. simpl. now rewrite Hi, Hs.
Qed.

Lemma fields_int (nodes : list value) :
  Forall (fun f => py_int (fst f) = Some (snd f))
    (flat_map node_fields nodes).
Proof.
  induction nodes as [|n r IH]; simpl; auto.
  apply Forall_app. split; auto. apply node_fields_int.
Qed.

(** The fields of the traversal, node by node. *)
Lemma fields_of_visited doc which :
  concat (job_fields doc which) =
  flat_map node_fields (visited_nodes doc which).
Proof.
  unfold job_fields, visited_nodes, item_fields.
  induction (iter_queue_items doc which) as [|sij r IH]; simpl; auto.
  rewrite IH, flat_map_app. f_equal.
  induction (iter_nodes_from_item (snd sij)) as [|kv q IHq]; simpl; auto.
  now rewrite IHq.
Qed.

Lemma touched_nodes_count (nodes : list value) :
  length (filter has_seed_field nodes) =
  length (flat_map node_fields nodes).
Proof.
  induction nodes as [|n r IH]; simpl; auto.
  rewrite length_app, <- IH. unfold has_seed_field.
  pose proof (node_fields_short n) as Hs.
  destruct (node_fields n) as [|f [|g q]]; simpl in *; auto; lia.
Qed.

(** *** An unknown mode *)

Lemma same_counters_refl st : same_counters st st.
Proof. split; reflexivity. Qed.

Lemma same_counters_trans st1 st2 st3 :
  same_counters st1 st2 -> same_counters st2 st3 -> same_counters st1 st3.
Proof. unfold same_counters. intros [-> ->] [-> ->]. auto. Qed.

Lemma reseed_node_unknown mode step scope node st :
  mode <> "random" -> mode <> "increment" ->
  exists st',
    reseed_node mode step scope node st = (node, st', node_event node)
    /\ (node_event node = None -> same_counters st st').
Proof.
  intros H1 H2. apply String.eqb_neq in H1, H2.
  destruct node as [| | | | | |nd];
    try (exists st; split; [reflexivity | intros _; apply same_counters_refl]).
  unfold node_event, has_seed_field, node_fields, reseed_node.
  simpl class_type_hashable.
  destruct (hashable (dict_get_none "class_type" nd)) eqn:Hh.
  - destruct (find_seed_fields_cases nd Hh)
      as [Hf | (ins & v & cur & _ & _ & _ & _ & Hf)]; rewrite Hf; simpl.
    + exists st. split; auto. intros _. apply same_counters_refl.
    + unfold new_seed_for. rewrite H1, H2. simpl.
      eexists. split; [reflexivity | discriminate].
  - unfold find_seed_fields.
    destruct (dict_get_none "class_type" nd); try discriminate; simpl;
      (exists st; split; [reflexivity | discriminate]).
Qed.

Lemma with_item_nodes_same item nodes :
  item_nodes item = Some nodes -> with_item_nodes item nodes = item.
Proof.
  destruct item as [| | | | |l|d]; try discriminate.
  - destruct l as [|a [|b [|c r]]]; try discriminate.
    destruct c; try discriminate. now intros [= ->].
  - now intros [= ->].
Qed.

Lemma node_event_not_dict v : isinstance_dict v = false -> node_event v = None.
Proof. destruct v; auto; discriminate. Qed.

Lemma events_of_entries (nodes : dict) :
  first_outcome node_event
    (map snd (filter (fun kv => isinstance_dict (snd kv)) nodes)) =
  first_outcome (fun kv => node_event (snd kv)) nodes.
Proof.
  induction nodes as [|[k v] r IH]; simpl; auto.
  destruct (isinstance_dict v) eqn:E; simpl; rewrite IH; auto.
  now rewrite (node_event_not_dict v E).
Qed.

(** What the visit of an item raises. *)
Lemma reseed_item_unknown mode start step scope item st :
  mode <> "random" -> mode <> "increment" ->
  exists st',
    reseed_item mode start step scope item st =
      (item, st',
       first_outcome node_event (map snd (iter_nodes_from_item item)))
    /\ (first_outcome node_event (map snd (iter_nodes_from_item item)) =
        None -> same_counters st st').
Proof.
  intros H1 H2. unfold reseed_item, iter_nodes_from_item.
  destruct (item_nodes item) as [nodes|] eqn:Hn.
  - destruct (for_each_first_outcome
                (on_value (reseed_node mode step scope))
                (fun kv => node_event (snd kv))
                same_counters same_counters_refl same_counters_trans)
      with (l := nodes) (s := set_job_seed start st)
      as (st' & Hr & HR).
    + intros [k v] s.
      destruct (reseed_node_unknown mode step scope v s H1 H2)
        as (s' & Hb & Hs).
      exists s'. unfold on_value. simpl. rewrite Hb. auto.
    + exists st'. unfold for_each_value. rewrite Hr.
      rewrite (with_item_nodes_same _ _ Hn), events_of_entries.
      split; [reflexivity|]. intros He.
      apply (same_counters_trans _ (set_job_seed start st)); auto.
      split; reflexivity.
  - exists st. split; [reflexivity|]. intros _. apply same_counters_refl.
Qed.

Lemma reseed_sections_unknown mode start step scope which doc st :
  mode <> "random" -> mode <> "increment" ->
  exists st',
    for_keys (reseed_section mode start step scope) which (doc, st) =
      ((doc, st'), first_outcome node_event (visited_nodes doc which))
    /\ (first_outcome node_event (visited_nodes doc which) = None ->
        same_counters st st').
Proof.
  intros H1 H2. revert st.
  induction which as [|s rest IH]; intros st.
  - exists st. split; [reflexivity|]. intros _. apply same_counters_refl.
  - unfold visited_nodes, iter_queue_items in *. cbn [for_keys flat_map].
    rewrite flat_map_app, first_outcome_app.
    assert (Hstep : exists st1,
      reseed_section mode start step scope s (doc, st) =
        ((doc, st1),
         first_outcome node_event
           (flat_map (fun sij : string * nat * value =>
                        map snd (iter_nodes_from_item (snd sij)))
              (section_items doc s)))
      /\ (first_outcome node_event
            (flat_map (fun sij : string * nat * value =>
                         map snd (iter_nodes_from_item (snd sij)))
               (section_items doc s)) = None -> same_counters st st1)).
    { unfold reseed_section.
      destruct (Dict.get s doc) as [v|] eqn:Hg.
      - destruct v as [| | | | |items|d];
          try solve [exists st; unfold section_items; rewrite Hg; simpl;
                     split; [reflexivity
                            | intros _; apply same_counters_refl]].
        rewrite (section_nodes doc s items Hg), first_outcome_flat_map.
        destruct (for_each_first_outcome
                    (reseed_item mode start step scope)
                    (fun item => first_outcome node_event
                                   (map snd (iter_nodes_from_item item)))
                    same_counters same_counters_refl same_counters_trans)
          with (l := items) (s := st) as (st1 & Hr & HR).
        + intros x s0. now apply reseed_item_unknown.
        + exists st1. rewrite Hr, (set_get_id _ _ _ Hg). auto.
      - exists st. unfold section_items. rewrite Hg. simpl.
        split; [reflexivity | intros _; apply same_counters_refl]. }
    destruct Hstep as (st1 & Hr1 & HR1). rewrite Hr1.
    match goal with |- context [match ?o with Some _ => _ | None => _ end] =>
      destruct o as [e|] eqn:He end.
    + exists st1. split; [reflexivity | discriminate].
    + destruct (IH st1) as (st2 & Hr2 & HR2). rewrite Hr2.
      exists st2. split; [reflexivity|]. intros Hn.
      apply (same_counters_trans _ st1); auto.
Qed.

(** *** The claims on [reseed_document] *)

(** C2, as the code has it.  With a mode that is neither [random] nor
    [increment] the call never writes to the document; it raises
    [ValueError] when the traversal reaches a node with a seed field,
    returns [(0, 0)] when there is none, and raises [TypeError] when a
    [class_type] that is not hashable comes first. *)
Theorem unknown_mode_leaves_document doc mode start step scope rng_seed
  only_sections :
  mode <> "random" -> mode <> "increment" ->
  reseed_document doc mode start step scope rng_seed only_sections =
  (doc,
   unknown_mode_result (visited_nodes doc (valid_sections only_sections))).
Proof.
  intros H1 H2. unfold reseed_document, unknown_mode_result.
  destruct (reseed_sections_unknown mode start step scope
              (valid_sections only_sections) doc
              (initial_locals start rng_seed) H1 H2) as (st' & Hr & HR).
  rewrite Hr.
  destruct (first_outcome node_event
              (visited_nodes doc (valid_sections only_sections))); auto.
  destruct (HR eq_refl) as [-> ->]. reflexivity.
Qed.

(** C5.  In increment mode, with any scope other than [job] (so with
    [global]), a call over distinct sections whose nodes all have a
    hashable [class_type] returns, and the seeds of the document it
    leaves, read in the order of the traversal across jobs and sections,
    are [start], [start + step], [start + 2 * step], ...: one term for
    each seed field of the document given. *)
Theorem increment_global_sequence doc start step scope rng_seed
  only_sections :
  scope <> "job" ->
  NoDup (valid_sections only_sections) ->
  forallb class_type_hashable
    (visited_nodes doc (valid_sections only_sections)) = true ->
  exists doc' t c,
    reseed_document doc "increment" start step scope rng_seed
      only_sections = (doc', Ok (t, c))
    /\ seeds_in_order doc' (valid_sections only_sections) =
       arithmetic start step
         (length (seeds_in_order doc (valid_sections only_sections))).
Proof.
  intros Hs Hnd Hh.
  destruct (reseed_document_assign doc "increment" start step scope
              rng_seed only_sections (or_intror eq_refl) Hnd Hh)
    as (doc' & Hr & Hv).
  do 3 eexists. split; [exact Hr|].
  unfold seeds_in_order, job_seeds. rewrite Hv.
  apply String.eqb_neq in Hs.
  destruct (assign_jobs_increment_global start step scope
              (job_fields doc (valid_sections only_sections))
              (initial_locals start rng_seed) Hs) as [H1 _].
  rewrite H1. simpl. f_equal.
  now rewrite seeds_of_fields, length_map.
Qed.

(** C6.  In increment mode with scope [job], a call over distinct
    sections whose nodes all have a hashable [class_type] returns, and
    in the document it leaves the seeds of every job yielded by the
    traversal, whatever its section, are [start], [start + step], ...:
    the counter restarts at each job. *)
Theorem increment_job_sequence doc start step rng_seed only_sections :
  NoDup (valid_sections only_sections) ->
  forallb class_type_hashable
    (visited_nodes doc (valid_sections only_sections)) = true ->
  exists doc' t c,
    reseed_document doc "increment" start step "job" rng_seed
      only_sections = (doc', Ok (t, c))
    /\ job_seeds doc' (valid_sections only_sections) =
       map (fun seeds => arithmetic start step (length seeds))
         (job_seeds doc (valid_sections only_sections)).
Proof.
  intros Hnd Hh.
  destruct (reseed_document_assign doc "increment" start step "job"
              rng_seed only_sections (or_intror eq_refl) Hnd Hh)
    as (doc' & Hr & Hv).
  do 3 eexists. split; [exact Hr|].
  unfold job_seeds. rewrite Hv, assign_jobs_increment_job, map_map.
  apply map_ext. intros job. now rewrite length_map.
Qed.

(** C8.  For a valid mode, a call over distinct sections whose nodes
    all have a hashable [class_type] returns [(t, c)] such that: every
    seed field is either left as it was or holds a new integer that
    differs from the integer read from it before ([write_policy]);
    [c] is the number of fields whose seed changed, that is of fields
    overwritten; and [t] is the number of visited nodes that have a
    seed field, changed or not. *)
Theorem reseed_write_policy doc mode start step scope rng_seed
  only_sections :
  valid_mode mode ->
  NoDup (valid_sections only_sections) ->
  forallb class_type_hashable
    (visited_nodes doc (valid_sections only_sections)) = true ->
  exists doc' t c,
    reseed_document doc mode start step scope rng_seed only_sections =
      (doc', Ok (t, c))
    /\ Forall (fun f => py_int (fst f) = Some (snd f))
         (concat (job_fields doc (valid_sections only_sections)))
    /\ Forall2 write_policy
         (concat (job_fields doc (valid_sections only_sections)))
         (concat (job_fields doc' (valid_sections only_sections)))
    /\ c = Z.of_nat
             (count_changed
                (seeds_in_order doc (valid_sections only_sections))
                (seeds_in_order doc' (valid_sections only_sections)))
    /\ t = Z.of_nat
             (length
                (filter has_seed_field
                   (visited_nodes doc (valid_sections only_sections)))).
Proof.
  intros Hm Hnd Hh.
  destruct (reseed_document_assign doc mode start step scope
              rng_seed only_sections Hm Hnd Hh) as (doc' & Hr & Hv).
  destruct (assign_jobs_counters mode start step scope
              (job_fields doc (valid_sections only_sections))
              (initial_locals start rng_seed)) as (Ht & Hc & Hp).
  do 3 eexists. split; [exact Hr|].
  unfold seeds_in_order, job_seeds. rewrite !seeds_of_fields, Hv.
  repeat split.
  - rewrite fields_of_visited. apply fields_int.
  - exact Hp.
  - rewrite Hc. simpl. reflexivity.
  - rewrite Ht, touched_nodes_count, <- fields_of_visited. simpl.
    reflexivity.
Qed.


End WithRuntime.

Import ExampleRuntime.

(** The instance of C5 in the specification: two jobs with two sampler
    nodes each, [start = 10], [step = 5], scope [global]. *)
Lemma increment_global_sequence_example :
  exists doc' t c,
    reseed_document
      Examples.two_sampler_jobs "increment" 10 5 "global" None None =
      (doc', Ok (t, c))
    /\ seeds_in_order doc' ["queue_running"; "queue_pending"] =
       [10; 15; 20; 25].
Proof.
  destruct (increment_global_sequence
              Examples.two_sampler_jobs 10 5 "global" None None)
    as (doc' & t & c & Hr & Hs).
  - discriminate.
  - repeat constructor; simpl; intuition discriminate.
  - reflexivity.
  - exists doc', t, c. split; [exact Hr | exact Hs].
Defined.

(** The instance of C6 in the specification: the same document with
    scope [job]. *)
Lemma increment_job_sequence_example :
  exists doc' t c,
    reseed_document
      Examples.two_sampler_jobs "increment" 10 5 "job" None None =
      (doc', Ok (t, c))
    /\ job_seeds doc' ["queue_running"; "queue_pending"] =
       [[10; 15]; [10; 15]].
Proof.
  destruct (increment_job_sequence
              Examples.two_sampler_jobs 10 5 None None)
    as (doc' & t & c & Hr & Hs).
  - repeat constructor; simpl; intuition discriminate.
  - reflexivity.
  - exists doc', t, c. split; [exact Hr | exact Hs].
Defined.

(** An instance of C8: four nodes touched; with [start = 7] the first
    seed of each job is already the one assigned and stays, so two
    seeds change. *)
Lemma reseed_write_policy_example :
  exists doc' t c,
    reseed_document
      Examples.two_sampler_jobs "increment" 7 5 "job" None None =
      (doc', Ok (t, c))
    /\ c = 2 /\ t = 4.
Proof.
  destruct (reseed_write_policy
              Examples.two_sampler_jobs "increment" 7 5 "job" None None)
    as (doc' & t & c & Hr & _ & _ & Hc & Ht).
  - right. reflexivity.
  - repeat constructor; simpl; intuition discriminate.
  - reflexivity.
  - exists doc', t, c. split; [exact Hr|]. split; [|exact Ht].
    pose proof Hr as Hd. vm_compute in Hd.
    injection Hd as Hd _ _. subst doc'. exact Hc.
Defined.

(** C2, as stated, fails on a queue without sampler nodes: the call
    with an unknown mode returns normally. *)
Lemma unknown_mode_returns_normally :
  reseed_document Examples.save_video_queue "bogus" 0 1 "global" None None =
  (Examples.save_video_queue, Ok (0, 0)).
Proof. reflexivity. Qed.

(** An instance of C2 where the call raises: the first sampler node is
    reached with its seed, and every seed is as it was. *)
Lemma unknown_mode_leaves_document_example :
  reseed_document Examples.two_sampler_jobs "bogus" 10 5 "global" None None =
  (Examples.two_sampler_jobs, Raise ValueError).
Proof.
  apply (unknown_mode_leaves_document
           Examples.two_sampler_jobs "bogus" 10 5 "global" None None);
    discriminate.
Defined.

End ReseedFacts.

(** ** The frame and prefix rewriter *)

Module ReframeFacts.
Import Reframe DictFacts LoopFacts.

(** *** Job shapes *)

Lemma index2_standard_nodes (job : list value) :
  index2_is_dict job = false -> Reseed.standard_nodes (VList job) = None.
Proof.
  unfold index2_is_dict.
  destruct job as [|a [|b [|c r]]]; simpl; auto.
  destruct c; simpl; auto; discriminate.
Qed.

(** C3, as the code has it.  For a job that is a list whose index 2 is
    not a mapping: [iter_queue_items] does not yield it,
    [iter_nodes_from_item] yields no node of it and the reseeding loop
    leaves it as it is; the rewriter runs no graph pass on it, and does
    to it exactly what the metadata pass of lines 64-65 does, which
    rewrites index 3 when that is a mapping. *)
Theorem job_without_graph {RT : PyRuntime} (job : list value) (frames : Z)
  (mode : string) (start step : Z) (scope : string) (st : Reseed.locals) :
  index2_is_dict job = false ->
  Reseed.yields_item (VList job) = false
  /\ Reseed.iter_nodes_from_item (VList job) = []
  /\ Reseed.reseed_item mode start step scope (VList job) st =
     (VList job, st, None)
  /\ fix_job_graph job frames = (job, None)
  /\ fix_job_entry (VList job) frames =
     (let (job', o) := fix_job_meta job frames in (VList job', o)).
Proof.
  intros H. pose proof (index2_standard_nodes job H) as Hs.
  assert (Hg : fix_job_graph job frames = (job, None)).
  { unfold index2_is_dict in H.
    destruct job as [|a [|b [|c r]]]; simpl; auto.
    destruct c; simpl in *; auto; discriminate. }
  unfold Reseed.yields_item, Reseed.iter_nodes_from_item, Reseed.reseed_item,
    Reseed.item_nodes.
  rewrite Hs. repeat split; auto.
  unfold fix_job_entry. now rewrite Hg.
Qed.

Lemma job_without_graph_example :
  fix_job_graph Examples.meta_only_job 145 = (Examples.meta_only_job, None)
  /\ Reseed.iter_nodes_from_item (VList Examples.meta_only_job) = [].
Proof.
  destruct (job_without_graph (RT := ExampleRuntime.runtime)
              Examples.meta_only_job 145 "increment" 0 1 "global"
              (Reseed.initial_locals 0 None))
    as (_ & Hn & _ & Hg & _).
  - reflexivity.
  - split; [exact Hg | exact Hn].
Defined.

(** C3, as stated, fails: index 2 of the job is [null], and the rewriter
    still changes the prefix held in the metadata at index 3. *)
Lemma metadata_rewritten_without_graph :
  index2_is_dict Examples.meta_only_job = false
  /\ fix_job_entry (VList Examples.meta_only_job) 145 =
     (VList
        [VInt 0; VStr "id"; VNone;
         VDict [("extra_pnginfo",
                 VDict [("workflow",
                         VDict [("nodes",
                                 VList [VDict [("type", VStr "SaveVideo");
                                               ("widgets_values",
                                                VList [VStr "clip-145f"])]])])])]],
      None).
Proof. split; reflexivity. Qed.

Lemma for_in_unchanged {A : Type} (body : A -> A * outcome) (P : A -> Prop)
  (l : list A) :
  (forall x, P x -> body x = (x, None)) ->
  Forall P l ->
  for_in body l = (l, None).
Proof.
  intros Hb HP. unfold for_in.
  rewrite (for_each_unchanged (stateless body) P l tt); auto.
  intros x s Hx. unfold stateless. now rewrite (Hb x Hx).
Qed.

Lemma fix_job_entry_not_list (job : value) (frames : Z) :
  isinstance_list job = false -> fix_job_entry job frames = (job, None).
Proof. destruct job; simpl; auto; discriminate. Qed.

Lemma fix_section_no_list_jobs (frames : Z) (key : string) (data : dict) :
  match Dict.get key data with
  | Some (VList arr) => forallb (fun job => negb (isinstance_list job)) arr
  | _ => true
  end = true ->
  fix_section frames key data = (data, None).
Proof.
  unfold fix_section.
  destruct (Dict.get key data) as [[| | | | |arr|d]|] eqn:Hg; auto.
  intros H.
  rewrite (for_in_unchanged _ (fun job => isinstance_list job = false) arr).
  - now rewrite (set_get_id _ _ _ Hg).
  - intros x Hx. now apply fix_job_entry_not_list.
  - apply Forall_forall. intros x Hx. rewrite forallb_forall in H.
    specialize (H x Hx). now destruct (isinstance_list x).
Qed.

(** C4, as the code has it.  The rewriter passes over a job that is a
    bare node map: [fix_job_entry] returns it as it is, and a document
    none of whose jobs is a list comes back unchanged. *)
Theorem rewrite_skips_bare_node_maps (data : dict) (frames : Z) :
  no_list_jobs data = true ->
  (forall graph : dict,
      fix_job_entry (VDict graph) frames = (VDict graph, None))
  /\ process_saved_queue data frames = (data, None).
Proof.
  intros H. split; [reflexivity|].
  unfold no_list_jobs, known_queues in H. simpl in H.
  apply andb_prop in H. destruct H as [H1 H].
  apply andb_prop in H. destruct H as [H2 H].
  apply andb_prop in H. destruct H as [H3 _].
  unfold process_saved_queue, known_queues. simpl.
  rewrite (fix_section_no_list_jobs _ _ _ H1).
  rewrite (fix_section_no_list_jobs _ _ _ H2).
  now rewrite (fix_section_no_list_jobs _ _ _ H3).
Qed.

Lemma rewrite_skips_bare_node_maps_example :
  process_saved_queue Examples.bare_map_queue 145 =
  (Examples.bare_map_queue, None).
Proof.
  apply (rewrite_skips_bare_node_maps Examples.bare_map_queue 145).
  reflexivity.
Defined.

(** C4, as stated, fails: the graph pass would set the length of the
    sizing node to 145, and the rewriter leaves the bare node map with
    its length of 81. *)
Lemma bare_node_map_not_rewritten :
  fix_graph_nodes Examples.sizing_graph 145 =
    ([("5", VDict [("class_type", VStr "EmptyHunyuanLatentVideo");
                   ("inputs", VDict [("length", VInt 145)])])], None)
  /\ fix_job_entry (VDict Examples.sizing_graph) 145 =
     (VDict Examples.sizing_graph, None)
  /\ process_saved_queue Examples.bare_map_queue 145 =
     (Examples.bare_map_queue, None).
Proof. repeat split. Qed.

(** *** The prefix rule *)










(** The run of digits ends where a character that is not a digit stands. *)
Lemma span_digits_stop (ds : string) (c : ascii) (r : string) :
  all_digits ds = true -> is_digit c = false ->
  span_digits (ds ++ String c r) = (ds, String c r).
Proof.
  intros Hd Hc. induction ds as [|x ds IH]; simpl.
  - now rewrite Hc.
  - simpl in Hd. apply andb_prop in Hd. destruct Hd as [Hx Hd].
    now rewrite Hx, (IH Hd).
Qed.







(** *** The substitution *)





(** *** [rewrite_prefix] *)



Lemma lookahead_end : lookahead "" = true.
Proof. reflexivity. Qed.

Lemma lookahead_steps (ds : string) :
  all_digits ds = true -> ds <> "" -> lookahead (ds ++ "steps") = true.
Proof.
  intros Hd Hne. unfold lookahead, steps_suffix.
  change (ds ++ "steps") with (ds ++ String "s" "teps").
  rewrite (span_digits_stop ds "s" "teps" Hd eq_refl).
  destruct ds; [contradiction | reflexivity].
Qed.






(** The three cases the specification lists. *)
Example rewrite_prefix_literal_cases :
  rewrite_prefix_str "clip-81f" 145 = "clip-145f"
  /\ rewrite_prefix_str "clip-81f24steps" 145 = "clip-145f24steps"
  /\ rewrite_prefix_str "clip" 145 = "clip-145f".
Proof. repeat split. Qed.

(** [$] also matches before a newline that ends the string, so a segment
    followed by a newline is replaced as well. *)
Example rewrite_prefix_before_newline :
  rewrite_prefix_str ("clip-81f" ++ String "010" "") 145 =
  "clip-145f" ++ String "010" "".
Proof. reflexivity. Qed.

(** C7.  A prefix that already ends with the segment of [frames] matches
    the pattern, the substitution gives the same string back, and the
    test [new == prefix] takes that for the absence of a segment: a
    second segment is appended. *)
Theorem rewrite_prefix_same_frames :
  rewrite_prefix_str "clip-145f" 145 = "clip-145f-145f"
  /\ rewrite_prefix_str "clip-145f24steps" 145 = "clip-145f24steps-145f".
Proof. split; reflexivity. Qed.

(** C1.  Rewriting the queue a second time with the same [frames]
    appends a second segment to the prefix written by the first pass. *)
Theorem rewrite_twice_differs :
  process_saved_queue Examples.save_video_queue 145 =
    ([("queue_pending",
       VList [Examples.job
                [("9", VDict [("class_type", VStr "SaveVideo");
                              ("inputs",
                               VDict [("filename_prefix",
                                       VStr "clip-145f")])])]])], None)
  /\ process_saved_queue
       (fst (process_saved_queue Examples.save_video_queue 145)) 145 =
     ([("queue_pending",
        VList [Examples.job
                 [("9", VDict [("class_type", VStr "SaveVideo");
                               ("inputs",
                                VDict [("filename_prefix",
                                        VStr "clip-145f-145f")])])]])], None)
  /\ fst (process_saved_queue
            (fst (process_saved_queue Examples.save_video_queue 145)) 145)
     <> fst (process_saved_queue Examples.save_video_queue 145).
Proof. repeat split. discriminate. Qed.

(** *** Entries of a node map that are not mappings *)

(** C9.  The rewriter calls [node.get] on every value of the node map:
    a value that is a number raises [AttributeError].  The reseeder tests
    [isinstance(node, dict)] first and returns on the same document. *)
Theorem rewrite_raises_on_scalar_node :
  process_saved_queue Examples.scalar_node_queue 145 =
    (Examples.scalar_node_queue, Some AttributeError)
  /\ Reseed.reseed_document (RT := ExampleRuntime.runtime)
       Examples.scalar_node_queue "increment" 0 1 "global" None None =
     (Examples.scalar_node_queue, Reseed.Ok (0, 0)).
Proof. split; reflexivity. Qed.

End ReframeFacts.

(** ** The canonical graph pass *)

Module GraphFacts.
Import Reframe Observe DictFacts LoopFacts.

Lemma keys_set_present (k : string) (v w : value) (d : dict) :
  Dict.get k d = Some w -> keys (Dict.set k v d) = keys d.
Proof.
  unfold keys. induction d as [|[k' v'] r IH]; simpl; [discriminate|].
  destruct (String.eqb k k') eqn:E; simpl; auto.
  intros H. now rewrite IH.
Qed.

Lemma keys_set_absent (k : string) (v : value) (d : dict) :
  Dict.get k d = None -> keys (Dict.set k v d) = (keys d ++ [k])%list.
Proof.
  unfold keys. induction d as [|[k' v'] r IH]; simpl; auto.
  destruct (String.eqb k k') eqn:E; [discriminate|].
  intros H. simpl. now rewrite IH.
Qed.

Lemma set_set_same (k : string) (v w : value) (d : dict) :
  Dict.set k v (Dict.set k w d) = Dict.set k v d.
Proof.
  induction d as [|[k' v'] r IH]; simpl.
  - now rewrite String.eqb_refl.
  - destruct (String.eqb k k') eqn:E; simpl; rewrite E; auto.
    now rewrite IH.
Qed.

Lemma sizing_not_save (v : value) :
  is_sizing_type v = true -> is_save_type v = false.
Proof.
  destruct v; simpl; try discriminate.
  unfold is_sizing_type, is_save_type. simpl. intros H.
  apply String.eqb_eq in H. now subst s.
Qed.

Lemma class_type_after_inputs (nd : dict) (v : value) :
  dict_get_none "class_type" (Dict.set "inputs" v nd) =
  dict_get_none "class_type" nd.
Proof. unfold dict_get_none. now rewrite get_set_other by discriminate. Qed.

(** X5.  The length of a sizing node.  A node of the sizing type whose
    [inputs] is a dict or is missing comes out with [inputs["length"]]
    equal to [frames]; its other inputs and its other keys are as they
    were, and nothing is raised. *)
Theorem sizing_node_length_forced (nd : dict) (frames : Z) :
  is_sizing_type (dict_get_none "class_type" nd) = true ->
  inputs_usable nd = true ->
  exists nd',
    fix_graph_node frames (VDict nd) = (VDict nd', None)
    /\ Dict.get "length" (node_inputs nd') = Some (VInt frames)
    /\ (forall k, k <> "length" ->
          Dict.get k (node_inputs nd') = Dict.get k (node_inputs nd))
    /\ (forall k, k <> "inputs" -> Dict.get k nd' = Dict.get k nd).
Proof.
  intros Hc Hu. unfold fix_graph_node.
  unfold is_sizing_type in Hc. rewrite Hc.
  unfold set_length, setdefault_inputs, inputs_usable, node_inputs in *.
  destruct (Dict.get "inputs" nd) as [[| | | | |l|ins]|] eqn:Hi;
    try discriminate.
  - rewrite class_type_after_inputs, (sizing_not_save _ Hc).
    eexists. split; [reflexivity|]. rewrite get_set_same.
    repeat split.
    + apply get_set_same.
    + intros k Hk. apply get_set_other. congruence.
    + intros k Hk. apply get_set_other. congruence.
  - rewrite class_type_after_inputs, class_type_after_inputs,
      (sizing_not_save _ Hc).
    eexists. split; [reflexivity|]. rewrite get_set_same.
    repeat split.
    + intros k Hk. simpl.
      destruct (String.eqb k "length") eqn:E; auto.
      apply String.eqb_eq in E. congruence.
    + intros k Hk. rewrite !get_set_other by congruence. reflexivity.
Qed.

Lemma sizing_node_length_forced_example :
  exists nd',
    fix_graph_node 145
      (VDict [("class_type", VStr "EmptyHunyuanLatentVideo")]) =
      (VDict nd', None)
    /\ Dict.get "length" (node_inputs nd') = Some (VInt 145).
Proof.
  destruct (sizing_node_length_forced
              [("class_type", VStr "EmptyHunyuanLatentVideo")] 145)
    as (nd' & H1 & H2 & _).
  - reflexivity.
  - reflexivity.
  - exists nd'. split; [exact H1 | exact H2].
Defined.

(** X6.  A sizing node whose [inputs] is there and is not a dict: the item
    assignment raises [TypeError] and the node is as it was. *)
Theorem sizing_node_bad_inputs (nd : dict) (frames : Z) :
  is_sizing_type (dict_get_none "class_type" nd) = true ->
  inputs_usable nd = false ->
  fix_graph_node frames (VDict nd) = (VDict nd, Some TypeError).
Proof.
  intros Hc Hu. unfold fix_graph_node.
  unfold is_sizing_type in Hc. rewrite Hc.
  unfold set_length, setdefault_inputs, inputs_usable in *.
  destruct (Dict.get "inputs" nd) as [[| | | | |l|ins]|]; try discriminate;
    reflexivity.
Qed.

Lemma sizing_node_bad_inputs_example :
  fix_graph_node 145
    (VDict [("class_type", VStr "EmptyHunyuanLatentVideo");
            ("inputs", VNone)]) =
  (VDict [("class_type", VStr "EmptyHunyuanLatentVideo"); ("inputs", VNone)],
   Some TypeError).
Proof.
  apply (sizing_node_bad_inputs
           [("class_type", VStr "EmptyHunyuanLatentVideo");
            ("inputs", VNone)] 145); reflexivity.
Defined.

(** X7.  Once its length is forced, a sizing node is a fixed point of the
    pass: a second run with the same [frames] returns it as it is. *)
Theorem sizing_node_second_pass (nd nd' : dict) (frames : Z) :
  is_sizing_type (dict_get_none "class_type" nd) = true ->
  fix_graph_node frames (VDict nd) = (VDict nd', None) ->
  fix_graph_node frames (VDict nd') = (VDict nd', None).
Proof.
  intros Hc. unfold fix_graph_node at 1.
  unfold is_sizing_type in Hc. rewrite Hc.
  unfold set_length, setdefault_inputs.
  destruct (Dict.get "inputs" nd) as [[| | | | |l|ins]|] eqn:Hi;
    try discriminate.
  - rewrite class_type_after_inputs, (sizing_not_save _ Hc).
    intros [= <-]. unfold fix_graph_node.
    rewrite class_type_after_inputs, Hc.
    unfold set_length, setdefault_inputs. rewrite get_set_same.
    rewrite !set_set_same, class_type_after_inputs, (sizing_not_save _ Hc).
    reflexivity.
  - rewrite !class_type_after_inputs, (sizing_not_save _ Hc).
    intros [= <-]. unfold fix_graph_node.
    rewrite !class_type_after_inputs, Hc.
    unfold set_length, setdefault_inputs. rewrite get_set_same.
    rewrite !set_set_same, !class_type_after_inputs, (sizing_not_save _ Hc).
    reflexivity.
Qed.

Lemma setdefault_inputs_frame (nd : dict) :
  (forall k, k <> "inputs" ->
     Dict.get k (fst (setdefault_inputs nd)) = Dict.get k nd)
  /\ (keys (fst (setdefault_inputs nd)) = keys nd
      \/ keys (fst (setdefault_inputs nd)) = (keys nd ++ ["inputs"])%list)
  /\ Dict.get "inputs" (fst (setdefault_inputs nd)) =
     Some (snd (setdefault_inputs nd)).
Proof.
  unfold setdefault_inputs.
  destruct (Dict.get "inputs" nd) as [v|] eqn:Hi; simpl.
  - auto.
  - repeat split.
    + intros k Hk. apply get_set_other. congruence.
    + right. now apply keys_set_absent.
    + apply get_set_same.
Qed.

Lemma set_length_frame (nd : dict) (frames : Z) :
  (forall k, k <> "inputs" ->
     Dict.get k (fst (set_length nd frames)) = Dict.get k nd)
  /\ (keys (fst (set_length nd frames)) = keys nd
      \/ keys (fst (set_length nd frames)) = (keys nd ++ ["inputs"])%list).
Proof.
  unfold set_length.
  destruct (setdefault_inputs_frame nd) as (Hf & Hk & Hg).
  destruct (setdefault_inputs nd) as [nd1 inputs]. simpl in *.
  destruct inputs; simpl; auto.
  split.
  - intros k Hne. rewrite get_set_other by congruence. auto.
  - rewrite (keys_set_present _ _ _ _ Hg). exact Hk.
Qed.

Lemma set_filename_prefix_frame (nd : dict) (frames : Z) :
  (forall k, k <> "inputs" ->
     Dict.get k (fst (set_filename_prefix nd frames)) = Dict.get k nd)
  /\ (keys (fst (set_filename_prefix nd frames)) = keys nd
      \/ keys (fst (set_filename_prefix nd frames)) =
         (keys nd ++ ["inputs"])%list).
Proof.
  unfold set_filename_prefix.
  destruct (setdefault_inputs_frame nd) as (Hf & Hk & Hg).
  destruct (setdefault_inputs nd) as [nd1 inputs]. simpl in *.
  destruct inputs as [| | | |s|l|ins]; simpl; auto.
  - destruct (is_infix "filename_prefix" s); simpl; auto.
  - destruct (existsb _ l); simpl; auto.
  - destruct (Dict.get "filename_prefix" ins); simpl; auto.
    split.
    + intros k Hne. rewrite get_set_other by congruence. auto.
    + rewrite (keys_set_present _ _ _ _ Hg). exact Hk.
Qed.

(** X8.  The graph pass writes to [node["inputs"]] and to nothing else of a
    node: whatever the node and however the call ends, every other key
    keeps its value, no key is removed or moved, and the only key that can
    appear is [inputs], at the end. *)
Theorem fix_graph_node_frame (nd : dict) (frames : Z) :
  exists nd' o,
    fix_graph_node frames (VDict nd) = (VDict nd', o)
    /\ (forall k, k <> "inputs" -> Dict.get k nd' = Dict.get k nd)
    /\ (keys nd' = keys nd \/ keys nd' = (keys nd ++ ["inputs"])%list).
Proof.
  unfold fix_graph_node.
  destruct (eq_str (dict_get_none "class_type" nd) "EmptyHunyuanLatentVideo")
    eqn:Hc.
  - destruct (set_length_frame nd frames) as [Hf Hk].
    destruct (set_length nd frames) as [nd1 o1]. simpl in *.
    assert (Hcls : dict_get_none "class_type" nd1 =
                   dict_get_none "class_type" nd).
    { unfold dict_get_none. now rewrite Hf by discriminate. }
    destruct o1 as [e|]; [eauto|].
    rewrite Hcls, (sizing_not_save _ Hc). eauto.
  - destruct (is_save_type (dict_get_none "class_type" nd)).
    + destruct (set_filename_prefix_frame nd frames) as [Hf Hk].
      destruct (set_filename_prefix nd frames) as [nd2 o2]. simpl in *.
      eauto.
    + exists nd, None. auto.
Qed.

Lemma for_each_value_keys {S : Type}
  (body : value -> S -> value * S * outcome) (d : dict) (s : S) :
  keys (fst (fst (for_each_value body d s))) = keys d.
Proof.
  unfold for_each_value, keys. revert s.
  induction d as [|[k v] r IH]; intros s; simpl; auto.
  unfold on_value at 1. simpl.
  destruct (body v s) as [[v' s'] [e|]]; simpl; auto.
  specialize (IH s').
  destruct (for_each (on_value body) r s') as [[r' s''] o]. simpl in *.
  now rewrite IH.
Qed.

(** X9.  The graph pass keeps the node ids of a graph, in their order,
    whatever the nodes are and however the call ends. *)
Theorem fix_graph_nodes_keeps_ids (graph : dict) (frames : Z) :
  keys (fst (fix_graph_nodes graph frames)) = keys graph.
Proof.
  unfold fix_graph_nodes, for_in_values.
  pose proof (for_each_value_keys (stateless (fix_graph_node frames))
                graph tt) as H.
  destruct (for_each_value (stateless (fix_graph_node frames)) graph tt)
    as [[g' u] o]. exact H.
Qed.

Lemma other_class_node_unchanged (v : value) (frames : Z) :
  other_class_node v = true -> fix_graph_node frames v = (v, None).
Proof.
  destruct v as [| | | | | |nd]; simpl; try discriminate.
  unfold is_sizing_type. intros H. apply andb_prop in H. destruct H as [H1 H2].
  apply negb_true_iff in H1, H2. now rewrite H1, H2.
Qed.

(** X10.  A graph whose nodes are all dicts of other types than the sizing
    type and the two save types comes back as it is, without error. *)
Theorem other_classes_untouched (graph : dict) (frames : Z) :
  forallb (fun kv => other_class_node (snd kv)) graph = true ->
  fix_graph_nodes graph frames = (graph, None).
Proof.
  intros H. unfold fix_graph_nodes, for_in_values, for_each_value.
  rewrite (for_each_unchanged _
             (fun kv : string * value => other_class_node (snd kv) = true)).
  - reflexivity.
  - intros [k v] s Hv. unfold on_value, stateless. simpl in *.
    now rewrite (other_class_node_unchanged v frames Hv).
  - apply Forall_forall. intros x Hx. rewrite forallb_forall in H. auto.
Qed.

Lemma other_classes_untouched_example :
  fix_graph_nodes [("3", Examples.sampler 7); ("4", Examples.sampler 8)] 145 =
  ([("3", Examples.sampler 7); ("4", Examples.sampler 8)], None).
Proof.
  apply (other_classes_untouched
           [("3", Examples.sampler 7); ("4", Examples.sampler 8)] 145).
  reflexivity.
Defined.

Lemma save_not_sizing (v : value) :
  is_save_type v = true -> is_sizing_type v = false.
Proof.
  destruct (is_sizing_type v) eqn:E; auto.
  rewrite (sizing_not_save v E). discriminate.
Qed.

(** X11.  The prefix of a save node.  A node of a save type whose [inputs]
    is a dict with a [filename_prefix] comes out with that input rewritten
    by [rewrite_prefix] (a prefix that is not a string stays); its other
    inputs, its other keys and the order of its keys are as they were. *)
Theorem save_node_prefix_rewritten (nd ins : dict) (p : value) (frames : Z) :
  is_save_type (dict_get_none "class_type" nd) = true ->
  Dict.get "inputs" nd = Some (VDict ins) ->
  Dict.get "filename_prefix" ins = Some p ->
  exists nd',
    fix_graph_node frames (VDict nd) = (VDict nd', None)
    /\ Dict.get "filename_prefix" (node_inputs nd') =
       Some (rewrite_prefix p frames)
    /\ (forall k, k <> "filename_prefix" ->
          Dict.get k (node_inputs nd') = Dict.get k ins)
    /\ (forall k, k <> "inputs" -> Dict.get k nd' = Dict.get k nd)
    /\ keys nd' = keys nd.
Proof.
  intros Hc Hi Hp. unfold fix_graph_node.
  pose proof (save_not_sizing _ Hc) as Hn. unfold is_sizing_type in Hn.
  rewrite Hn, Hc. unfold set_filename_prefix, setdefault_inputs.
  rewrite Hi, Hp. eexists. split; [reflexivity|].
  unfold node_inputs. rewrite get_set_same. repeat split.
  - apply get_set_same.
  - intros k Hk. apply get_set_other. congruence.
  - intros k Hk. apply get_set_other. congruence.
  - now apply (keys_set_present _ _ (VDict ins)).
Qed.

Lemma save_node_prefix_rewritten_example :
  exists nd',
    fix_graph_node 145
      (VDict [("class_type", VStr "SaveImage");
              ("inputs", VDict [("filename_prefix", VStr "img-81f")])]) =
      (VDict nd', None)
    /\ Dict.get "filename_prefix" (node_inputs nd') = Some (VStr "img-145f").
Proof.
  destruct (save_node_prefix_rewritten
              [("class_type", VStr "SaveImage");
               ("inputs", VDict [("filename_prefix", VStr "img-81f")])]
              [("filename_prefix", VStr "img-81f")] (VStr "img-81f") 145)
    as (nd' & H1 & H2 & _); try reflexivity.
  exists nd'. split; [exact H1 | exact H2].
Defined.

Lemma sizing_node_second_pass_example :
  fix_graph_node 145
    (VDict [("class_type", VStr "EmptyHunyuanLatentVideo");
            ("inputs", VDict [("length", VInt 145)])]) =
  (VDict [("class_type", VStr "EmptyHunyuanLatentVideo");
          ("inputs", VDict [("length", VInt 145)])], None).
Proof.
  apply (sizing_node_second_pass
           [("class_type", VStr "EmptyHunyuanLatentVideo");
            ("inputs", VDict [("length", VInt 81)])]
           [("class_type", VStr "EmptyHunyuanLatentVideo");
            ("inputs", VDict [("length", VInt 145)])] 145); reflexivity.
Defined.

End GraphFacts.

(** ** The UI mirror pass *)

Module MirrorFacts.
Import Reframe Observe ObserveJobs DictFacts LoopFacts GraphFacts.

Lemma list_set_length {A : Type} (i : nat) (x : A) (l : list A) :
  length (list_set i x l) = length l.
Proof.
  revert i. induction l as [|y r IH]; intros [|i]; simpl; auto.
Qed.

Lemma list_set_other {A : Type} (i j : nat) (x : A) (l : list A) :
  i <> j -> nth_error (list_set i x l) j = nth_error l j.
Proof.
  revert i j. induction l as [|y r IH]; intros [|i] [|j] H; simpl; auto;
    try congruence.
Qed.

Lemma list_set_same {A : Type} (i : nat) (x : A) (l : list A) :
  (i < length l)%nat -> nth_error (list_set i x l) i = Some x.
Proof.
  revert i. induction l as [|y r IH]; intros [|i] H; simpl in *;
    try lia; auto.
  apply IH. lia.
Qed.

Lemma fix_widgets_length (ntype : value) (wv : list value) (frames : Z) :
  length (fix_widgets ntype wv frames) = length wv.
Proof.
  unfold fix_widgets.
  set (wv1 := if (eq_str ntype "EmptyHunyuanLatentVideo"
                  && (3 <=? length wv)%nat)%bool
              then list_set 2 (VInt frames) wv else wv).
  assert (Hl : length wv1 = length wv).
  { subst wv1. destruct (_ && _)%bool; auto. apply list_set_length. }
  destruct (is_save_type ntype); auto.
  destruct wv1 as [|[| | | |s| |] r]; auto.
Qed.

Lemma fix_widgets_index2 (ntype : value) (wv : list value) (frames : Z) :
  is_sizing_type ntype = true -> (3 <= length wv)%nat ->
  nth_error (fix_widgets ntype wv frames) 2 = Some (VInt frames).
Proof.
  intros Hs H. unfold fix_widgets. rewrite (sizing_not_save _ Hs).
  unfold is_sizing_type in Hs. rewrite Hs. cbn [andb].
  rewrite (proj2 (Nat.leb_le _ _) H). apply list_set_same. lia.
Qed.

(** X12.  The widget array keeps its length, and no index other than 0 and 2
    is ever written, whatever the type of the node. *)
Theorem fix_widgets_frame (ntype : value) (wv : list value) (frames : Z) :
  length (fix_widgets ntype wv frames) = length wv
  /\ forall i, i <> 0%nat -> i <> 2%nat ->
       nth_error (fix_widgets ntype wv frames) i = nth_error wv i.
Proof.
  unfold fix_widgets.
  set (wv1 := if (eq_str ntype "EmptyHunyuanLatentVideo"
                  && (3 <=? length wv)%nat)%bool
              then list_set 2 (VInt frames) wv else wv).
  assert (H1 : length wv1 = length wv
               /\ forall i, i <> 2%nat -> nth_error wv1 i = nth_error wv i).
  { subst wv1. destruct (_ && _)%bool; auto. split.
    - apply list_set_length.
    - intros i Hi. apply list_set_other. congruence. }
  destruct H1 as [Hl Hn].
  destruct (is_save_type ntype); [|split; auto].
  destruct wv1 as [|[| | | |s| |] r]; try solve [split; auto].
  split; [exact Hl|]. intros [|i] H0 H2; [congruence|].
  rewrite <- (Hn (S i) H2). reflexivity.
Qed.

(** X13.  The length in the UI mirror.  For the sizing type and an array of
    three widgets or more, index 2 receives [frames] and every other index
    keeps its widget; a shorter array is left as it is. *)
Theorem fix_widgets_sizing (ntype : value) (wv : list value) (frames : Z) :
  is_sizing_type ntype = true ->
  ((3 <= length wv)%nat ->
     nth_error (fix_widgets ntype wv frames) 2 = Some (VInt frames)
     /\ forall i, i <> 2%nat ->
          nth_error (fix_widgets ntype wv frames) i = nth_error wv i)
  /\ ((length wv < 3)%nat -> fix_widgets ntype wv frames = wv).
Proof.
  intros Hs. unfold fix_widgets. rewrite (sizing_not_save _ Hs).
  unfold is_sizing_type in Hs. rewrite Hs. cbn [andb]. split; intros H.
  - rewrite (proj2 (Nat.leb_le _ _) H). split.
    + apply list_set_same. lia.
    + intros i Hi. apply list_set_other. congruence.
  - now rewrite (proj2 (Nat.leb_gt _ _) H).
Qed.

Lemma fix_widgets_sizing_example :
  nth_error
    (fix_widgets (VStr "EmptyHunyuanLatentVideo")
       [VInt 848; VInt 480; VInt 81; VInt 1] 145) 2 = Some (VInt 145).
Proof.
  apply (fix_widgets_sizing (VStr "EmptyHunyuanLatentVideo")
           [VInt 848; VInt 480; VInt 81; VInt 1] 145).
  - reflexivity.
  - simpl. lia.
Defined.

(** The prefix in the UI mirror.  For a save type, a first widget that
    is a string is rewritten by the prefix rule and the other widgets are
    kept; an array that is empty, or whose first widget is not a string, is
    left as it is. *)
Theorem fix_widgets_save (ntype : value) (wv : list value) (frames : Z) :
  is_save_type ntype = true ->
  fix_widgets ntype wv frames =
  match wv with
  | VStr s :: r => VStr (rewrite_prefix_str s frames) :: r
  | _ => wv
  end.
Proof.
  intros Hs. unfold fix_widgets. rewrite Hs.
  pose proof (save_not_sizing _ Hs) as Hn. unfold is_sizing_type in Hn.
  rewrite Hn. simpl. destruct wv as [|[| | | |s| |] r]; reflexivity.
Qed.

Lemma fix_widgets_save_example :
  fix_widgets (VStr "SaveVideo") [VStr "clip-81f"; VInt 16] 145 =
  [VStr "clip-145f"; VInt 16].
Proof.
  apply (fix_widgets_save (VStr "SaveVideo") [VStr "clip-81f"; VInt 16] 145).
  reflexivity.
Defined.

(** X14.  The mirror pass writes under [meta["extra_pnginfo"]] and nowhere
    else: the keys of [meta] and their order stay, and every other key
    keeps its value, however the call ends. *)
Theorem fix_workflow_nodes_frame (meta : dict) (frames : Z) :
  keys (fst (fix_workflow_nodes meta frames)) = keys meta
  /\ forall k, k <> "extra_pnginfo" ->
       Dict.get k (fst (fix_workflow_nodes meta frames)) = Dict.get k meta.
Proof.
  unfold fix_workflow_nodes.
  destruct (Dict.get "extra_pnginfo" meta) as [[| | | | | |ep]|] eqn:He;
    simpl; auto.
  destruct (Dict.get "workflow" ep) as [[| | | | | |wf]|]; simpl; auto.
  destruct (Dict.get "nodes" wf) as [[| | | | |nodes|]|]; simpl; auto.
  destruct (for_in (fix_workflow_node frames) nodes) as [nodes' o]. simpl.
  split.
  - now apply (keys_set_present _ _ (VDict ep)).
  - intros k Hk. apply get_set_other. congruence.
Qed.

End MirrorFacts.

(** ** Jobs and documents under the rewriter *)

Module QueueFacts.
Import Reframe Observe ObserveJobs DictFacts LoopFacts GraphFacts MirrorFacts.

(** What a loop that ended normally did to every element. *)
Lemma for_each_post {A S : Type} (body : A -> S -> A * S * outcome)
  (Q : A -> Prop) (l l' : list A) (s s' : S) :
  (forall x t x' t', body x t = (x', t', None) -> Q x') ->
  for_each body l s = (l', s', None) ->
  Forall Q l'.
Proof.
  intros Hb. revert l' s s'.
  induction l as [|x r IH]; intros l' s s'; simpl.
  - intros [= <- _]. constructor.
  - destruct (body x s) as [[x' s1] [e|]] eqn:Hx; [discriminate|].
    destruct (for_each body r s1) as [[r' s2] o] eqn:Hr.
    intros [= <- _ ->]. constructor; eauto.
Qed.

Lemma for_each_length {A S : Type} (body : A -> S -> A * S * outcome)
  (l : list A) (s : S) :
  length (fst (fst (for_each body l s))) = length l.
Proof.
  revert s. induction l as [|x r IH]; intros s; simpl; auto.
  destruct (body x s) as [[x' s1] [e|]]; simpl; auto.
  specialize (IH s1). destruct (for_each body r s1) as [[r' s2] o].
  simpl in *. now rewrite IH.
Qed.

Lemma for_in_post {A : Type} (body : A -> A * outcome) (Q : A -> Prop)
  (l l' : list A) :
  (forall x x', body x = (x', None) -> Q x') ->
  for_in body l = (l', None) ->
  Forall Q l'.
Proof.
  intros Hb. unfold for_in.
  destruct (for_each (stateless body) l tt) as [[l1 u] o] eqn:H.
  intros [= <- ->].
  apply (for_each_post (stateless body) Q l l1 tt u); auto.
  intros x t x' t'. unfold stateless.
  destruct (body x) as [y o] eqn:Hy. intros [= <- _ ->]. eauto.
Qed.

Lemma for_in_length {A : Type} (body : A -> A * outcome) (l : list A) :
  length (fst (for_in body l)) = length l.
Proof.
  unfold for_in. pose proof (for_each_length (stateless body) l tt) as H.
  destruct (for_each (stateless body) l tt) as [[l1 u] o]. exact H.
Qed.

(** *** After a normal return *)

Lemma fix_graph_node_sized (frames : Z) (v v' : value) :
  fix_graph_node frames v = (v', None) -> canonical_sized frames v'.
Proof.
  destruct v as [| | | | | |nd]; try discriminate.
  unfold fix_graph_node. intros H nd' -> Hs.
  destruct (eq_str (dict_get_none "class_type" nd) "EmptyHunyuanLatentVideo")
    eqn:Hc.
  - unfold set_length, setdefault_inputs in H.
    destruct (Dict.get "inputs" nd) as [[| | | | |l|ins]|] eqn:Hi;
      try discriminate;
      rewrite ?class_type_after_inputs, (sizing_not_save _ Hc) in H;
      injection H as <-; unfold node_inputs; rewrite get_set_same.
    + apply get_set_same.
    + reflexivity.
  - assert (E : dict_get_none "class_type" nd' =
                dict_get_none "class_type" nd).
    { destruct (is_save_type (dict_get_none "class_type" nd)).
      - destruct (set_filename_prefix_frame nd frames) as [Hf _].
        destruct (set_filename_prefix nd frames) as [nd2 o2].
        simpl in Hf. injection H as <- _. unfold dict_get_none.
        now rewrite (Hf "class_type") by discriminate.
      - now injection H as <-. }
    unfold is_sizing_type in Hs. congruence.
Qed.

Lemma fix_graph_nodes_sized (frames : Z) (graph graph' : dict) :
  fix_graph_nodes graph frames = (graph', None) ->
  Forall (canonical_sized frames) (map snd graph').
Proof.
  unfold fix_graph_nodes, for_in_values, for_each_value.
  destruct (for_each (on_value (stateless (fix_graph_node frames))) graph tt)
    as [[g u] o] eqn:H.
  intros [= <- ->]. apply Forall_map.
  apply (for_each_post (on_value (stateless (fix_graph_node frames)))
           (fun kv => canonical_sized frames (snd kv)) graph g tt u); auto.
  intros [k v] t [k' v'] t'. unfold on_value, stateless. simpl.
  destruct (fix_graph_node frames v) as [y o] eqn:Hy.
  intros [= _ <- _ ->]. simpl. now apply (fix_graph_node_sized frames v).
Qed.

Lemma fix_workflow_node_sized (frames : Z) (n n' : value) :
  fix_workflow_node frames n = (n', None) -> mirror_sized frames n'.
Proof.
  destruct n as [| | | | | |nd]; try discriminate. simpl.
  intros H nd' wv' -> Hs Hw Hl.
  destruct (Dict.get "widgets_values" nd) as [[| | | | |wv|]|] eqn:Hg;
    injection H as <-; try congruence.
  rewrite get_set_same in Hw. injection Hw as <-.
  assert (Ht : dict_get_none "type" (Dict.set "widgets_values"
                 (VList (fix_widgets (dict_get_none "type" nd) wv frames)) nd)
               = dict_get_none "type" nd).
  { unfold dict_get_none. now rewrite get_set_other by discriminate. }
  rewrite Ht in Hs. rewrite fix_widgets_length in Hl.
  now apply fix_widgets_index2.
Qed.

Lemma fix_workflow_nodes_sized (frames : Z) (meta meta' : dict) :
  fix_workflow_nodes meta frames = (meta', None) ->
  Forall (mirror_sized frames) (meta_nodes meta').
Proof.
  unfold fix_workflow_nodes, meta_nodes.
  destruct (Dict.get "extra_pnginfo" meta) as [[| | | | | |ep]|] eqn:He;
    try discriminate.
  - destruct (Dict.get "workflow" ep) as [[| | | | | |wf]|] eqn:Hw;
      try (intros [= <-]; rewrite He, Hw; constructor).
    destruct (Dict.get "nodes" wf) as [[| | | | |nodes|]|] eqn:Hn;
      try (intros [= <-]; rewrite He, Hw, Hn; constructor).
    destruct (for_in (fix_workflow_node frames) nodes) as [nodes' o] eqn:Hf.
    intros [= <- ->]. rewrite !get_set_same.
    apply (for_in_post (fix_workflow_node frames) _ nodes nodes'); auto.
    intros x x'. apply fix_workflow_node_sized.
  - simpl. intros [= <-]. rewrite He. constructor.
Qed.

Lemma fix_job_entry_sized (frames : Z) (job job' : value) :
  fix_job_entry job frames = (job', None) -> job_sized frames job'.
Proof.
  unfold job_sized.
  destruct job as [| | | | |l|]; simpl;
    try (intros [= <-]; split; constructor).
  destruct (fix_job_graph l frames) as [l1 [e|]] eqn:Hg; [discriminate|].
  destruct (fix_job_meta l1 frames) as [l2 o] eqn:Hm.
  intros [= <- ->].
  assert (Hgraph : Forall (canonical_sized frames)
                     (job_graph_nodes (VList l1))).
  { unfold fix_job_graph in Hg.
    destruct l as [|a [|b [|c r]]]; try (injection Hg as <-; constructor).
    destruct c; try (injection Hg as <-; constructor).
    destruct (fix_graph_nodes d frames) as [g' o] eqn:Hgn.
    injection Hg as <- ->. simpl. now apply (fix_graph_nodes_sized frames d). }
  unfold fix_job_meta in Hm.
  destruct l1 as [|a [|b [|c [|m r]]]];
    try (injection Hm as <-; split; [exact Hgraph | constructor]).
  destruct m; try (injection Hm as <-; split; [exact Hgraph | constructor]).
  destruct (fix_workflow_nodes d frames) as [meta' o] eqn:Hwf.
  injection Hm as <- ->. split.
  - exact Hgraph.
  - simpl. now apply (fix_workflow_nodes_sized frames d).
Qed.

Lemma fix_section_result (frames : Z) (key : string) (data data' : dict)
  (o : outcome) :
  fix_section frames key data = (data', o) ->
  keys data' = keys data
  /\ (forall k, k <> key -> Dict.get k data' = Dict.get k data)
  /\ length (jobs_in data' key) = length (jobs_in data key)
  /\ (o = None -> Forall (job_sized frames) (jobs_in data' key)).
Proof.
  unfold fix_section, jobs_in.
  destruct (Dict.get key data) as [[| | | | |arr|]|] eqn:Hg;
    try (intros [= <- <-]; rewrite Hg; repeat split; auto).
  pose proof (for_in_length (fun job => fix_job_entry job frames) arr) as Hl.
  destruct (for_in (fun job => fix_job_entry job frames) arr)
    as [arr' o'] eqn:Hf.
  intros [= <- <-]. rewrite get_set_same. repeat split.
  - now apply (keys_set_present _ _ (VList arr)).
  - intros k Hk. apply get_set_other. congruence.
  - exact Hl.
  - intros ->.
    apply (for_in_post (fun job => fix_job_entry job frames) _ arr arr');
      auto.
    intros x x'. apply fix_job_entry_sized.
Qed.

(** X15.  The two representations agree.  When [process_saved_queue] returns
    normally, in every job of the three sections every node of the graph
    that is of the sizing type has [length] equal to [frames], and every
    node of the UI mirror that is of the sizing type and has three widgets
    or more has [frames] at index 2. *)
Theorem rewrite_sizes_both_views (data data' : dict) (frames : Z) :
  process_saved_queue data frames = (data', None) ->
  Forall (fun job =>
            Forall (canonical_sized frames) (job_graph_nodes job)
            /\ Forall (mirror_sized frames) (job_mirror_nodes job))
    (all_jobs data').
Proof.
  unfold all_jobs, process_saved_queue, known_queues.
  cbn [for_keys flat_map].
  destruct (fix_section frames "queue_running" data) as [d1 [e|]] eqn:H1;
    [discriminate|].
  destruct (fix_section frames "queue_pending" d1) as [d2 [e|]] eqn:H2;
    [discriminate|].
  destruct (fix_section frames "queue_failed" d2) as [d3 [e|]] eqn:H3;
    [discriminate|].
  intros [= <-].
  destruct (fix_section_result _ _ _ _ _ H1) as (_ & _ & _ & Q1).
  destruct (fix_section_result _ _ _ _ _ H2) as (_ & F2 & _ & Q2).
  destruct (fix_section_result _ _ _ _ _ H3) as (_ & F3 & _ & Q3).
  rewrite app_nil_r. repeat (apply Forall_app; split).
  - unfold jobs_in in *.
    rewrite F3, F2 by discriminate. now apply Q1.
  - unfold jobs_in in *. rewrite F3 by discriminate. now apply Q2.
  - now apply Q3.
Qed.

(** X16.  The rewriter keeps the shape of the document, however the call
    ends: the top-level keys and their order stay, a key that is not one of
    the three sections keeps its value, and each section keeps its number
    of jobs. *)
Theorem process_saved_queue_frame (data : dict) (frames : Z) :
  keys (fst (process_saved_queue data frames)) = keys data
  /\ (forall k, ~ In k known_queues ->
        Dict.get k (fst (process_saved_queue data frames)) = Dict.get k data)
  /\ (forall key,
        length (jobs_in (fst (process_saved_queue data frames)) key) =
        length (jobs_in data key)).
Proof.
  assert (Hother : forall key k d d' o,
            fix_section frames key d = (d', o) -> k <> key ->
            jobs_in d' k = jobs_in d k).
  { intros key k d d' o H Hk. unfold jobs_in.
    destruct (fix_section_result _ _ _ _ _ H) as (_ & F & _).
    now rewrite F. }
  assert (Hlen : forall key k d d' o,
            fix_section frames key d = (d', o) ->
            length (jobs_in d' k) = length (jobs_in d k)).
  { intros key k d d' o H.
    destruct (String.eqb k key) eqn:E.
    - apply String.eqb_eq in E. subst k.
      now destruct (fix_section_result _ _ _ _ _ H) as (_ & _ & L & _).
    - apply String.eqb_neq in E. now rewrite (Hother _ _ _ _ _ H E). }
  unfold process_saved_queue, known_queues. cbn [for_keys].
  destruct (fix_section frames "queue_running" data) as [d1 o1] eqn:H1.
  destruct (fix_section_result _ _ _ _ _ H1) as (K1 & F1 & _).
  assert (R1 : keys d1 = keys data
               /\ (forall k, ~ In k ["queue_running"; "queue_pending";
                                     "queue_failed"] ->
                     Dict.get k d1 = Dict.get k data)
               /\ (forall key, length (jobs_in d1 key) =
                               length (jobs_in data key))).
  { repeat split; auto.
    - intros k Hk. apply F1. intros ->. apply Hk. simpl. auto.
    - intros key. now apply (Hlen _ _ _ _ _ H1). }
  destruct o1 as [e|]; [exact R1|].
  destruct (fix_section frames "queue_pending" d1) as [d2 o2] eqn:H2.
  destruct (fix_section_result _ _ _ _ _ H2) as (K2 & F2 & _).
  destruct R1 as (R1a & R1b & R1c).
  assert (R2 : keys d2 = keys data
               /\ (forall k, ~ In k ["queue_running"; "queue_pending";
                                     "queue_failed"] ->
                     Dict.get k d2 = Dict.get k data)
               /\ (forall key, length (jobs_in d2 key) =
                               length (jobs_in data key))).
  { repeat split.
    - congruence.
    - intros k Hk. rewrite F2; auto. intros ->. apply Hk. simpl. auto.
    - intros key. rewrite (Hlen _ key _ _ _ H2). apply R1c. }
  destruct o2 as [e|]; [exact R2|].
  destruct (fix_section frames "queue_failed" d2) as [d3 o3] eqn:H3.
  destruct (fix_section_result _ _ _ _ _ H3) as (K3 & F3 & _).
  destruct R2 as (R2a & R2b & R2c).
  assert (R3 : keys d3 = keys data
               /\ (forall k, ~ In k ["queue_running"; "queue_pending";
                                     "queue_failed"] ->
                     Dict.get k d3 = Dict.get k data)
               /\ (forall key, length (jobs_in d3 key) =
                               length (jobs_in data key))).
  { repeat split.
    - congruence.
    - intros k Hk. rewrite F3; auto. intros ->. apply Hk. simpl. auto.
    - intros key. rewrite (Hlen _ key _ _ _ H3). apply R2c. }
  destruct o3; exact R3.
Qed.

(** X17.  The rewriter writes to index 2 and index 3 of a list-shaped job and
    to no other index: the job keeps its length, its priority, its id and
    its outputs, however the call ends. *)
Theorem fix_job_entry_frame (job : list value) (frames : Z) :
  exists job' o,
    fix_job_entry (VList job) frames = (VList job', o)
    /\ length job' = length job
    /\ forall i, i <> 2%nat -> i <> 3%nat ->
         nth_error job' i = nth_error job i.
Proof.
  assert (Hg : forall l, length (fst (fix_job_graph l frames)) = length l
             /\ forall i, i <> 2%nat ->
                  nth_error (fst (fix_job_graph l frames)) i = nth_error l i).
  { intros l. unfold fix_job_graph.
    destruct l as [|a [|b [|c r]]]; auto.
    destruct c; auto.
    destruct (fix_graph_nodes d frames) as [g' o]. simpl. split; auto.
    intros [|[|[|i]]] Hi; auto. congruence. }
  assert (Hm : forall l, length (fst (fix_job_meta l frames)) = length l
             /\ forall i, i <> 3%nat ->
                  nth_error (fst (fix_job_meta l frames)) i = nth_error l i).
  { intros l. unfold fix_job_meta.
    destruct l as [|a [|b [|c [|m r]]]]; auto.
    destruct m; auto.
    destruct (fix_workflow_nodes d frames) as [m' o]. simpl. split; auto.
    intros [|[|[|[|i]]]] Hi; auto. congruence. }
  unfold fix_job_entry.
  destruct (Hg job) as [Hgl Hgn].
  destruct (fix_job_graph job frames) as [l1 o1]. simpl in *.
  destruct o1 as [e|].
  - exists l1, (Some e). auto.
  - destruct (Hm l1) as [Hml Hmn].
    destruct (fix_job_meta l1 frames) as [l2 o2]. simpl in *.
    exists l2, o2. repeat split; [congruence|].
    intros i H2 H3. rewrite Hmn, Hgn; auto.
Qed.

End QueueFacts.

(** ** More on the seed reassigner *)

Module SeedFacts.
Import Reseed Observe ObserveSeeds DictFacts LoopFacts ReseedFacts GraphFacts.

Section WithRuntime.
Context {RT : PyRuntime}.

(** *** [apply_seed] *)

(** X18.  [apply_seed] writes where the path leads: when every key of a
    path that is not empty is there, the value read back along the path is
    the new seed, as an integer. *)
Theorem apply_seed_read_back (node : value) (path : list string) (z : Z) :
  path <> [] -> path_exists node path = true ->
  read_path (apply_seed node path z) path = VInt z.
Proof.
  revert node. induction path as [|k rest IH]; intros node Hne He;
    [congruence|].
  destruct node as [| | | | | |d]; try discriminate.
  cbn [path_exists] in He.
  destruct (Dict.get k d) as [v|] eqn:Hg; [|discriminate].
  destruct rest as [|k2 r].
  - cbn [apply_seed]. unfold Dict.mem. rewrite Hg.
    cbn [read_path]. now rewrite get_set_same.
  - cbn [apply_seed]. rewrite Hg. cbn [read_path]. rewrite get_set_same.
    apply IH; [discriminate | exact He].
Qed.

Lemma apply_seed_step (d : dict) (k k2 : string) (r : list string) (z : Z) :
  apply_seed (VDict d) (k :: k2 :: r) z =
  match Dict.get k d with
  | Some cur => VDict (Dict.set k (apply_seed cur (k2 :: r) z) d)
  | None => VDict d
  end.
Proof. reflexivity. Qed.

Lemma path_exists_step (d : dict) (k : string) (r : list string) :
  path_exists (VDict d) (k :: r) =
  match Dict.get k d with
  | Some v => path_exists v r
  | None => false
  end.
Proof. reflexivity. Qed.

(** X19.  [apply_seed] never creates a key: when some key of the path is
    missing, or a value on the way is not a dict, the node is returned as
    it is. *)
Theorem apply_seed_needs_path (node : value) (path : list string) (z : Z) :
  path_exists node path = false -> apply_seed node path z = node.
Proof.
  revert node. induction path as [|k rest IH]; intros node He;
    [discriminate|].
  destruct node as [| | | | | |d]; try (destruct rest; reflexivity).
  rewrite path_exists_step in He.
  destruct rest as [|k2 r].
  - cbn [apply_seed]. unfold Dict.mem.
    destruct (Dict.get k d); [discriminate | reflexivity].
  - rewrite apply_seed_step.
    destruct (Dict.get k d) as [v|] eqn:Hg; auto.
    rewrite (IH v He). now rewrite (set_get_id _ _ _ Hg).
Qed.

(** *** The generator of jobs *)

Lemma in_enumerate_from {A : Type} (n i : nat) (x : A) (l : list A) :
  In (i, x) (enumerate_from n l) <->
  (n <= i)%nat /\ nth_error l (i - n) = Some x.
Proof.
  revert n. induction l as [|y r IH]; intros n; simpl.
  - split; [tauto|]. intros [_ H]. destruct (i - n)%nat; discriminate.
  - rewrite IH. split.
    + intros [[= <- <-] | [Hle Hn]].
      * rewrite Nat.sub_diag. auto.
      * split; [lia|]. replace (i - n)%nat with (S (i - S n)) by lia.
        exact Hn.
    + intros [Hle Hn]. destruct (i - n)%nat as [|j] eqn:E.
      * left. injection Hn as <-. f_equal. lia.
      * right. split; [lia|]. replace (i - S n)%nat with j by lia. exact Hn.
Qed.

(** X20.  What [iter_queue_items] yields.  A triple [(section, idx, item)]
    is yielded exactly when the section is one of those asked for, its
    value in the document is a list, [item] stands at index [idx] of that
    list and has one of the two job shapes. *)
Theorem iter_queue_items_yields (doc : dict) (which : list string)
  (section : string) (idx : nat) (item : value) :
  In (section, idx, item) (iter_queue_items doc which) <->
  In section which
  /\ exists items,
       Dict.get section doc = Some (VList items)
       /\ nth_error items idx = Some item
       /\ yields_item item = true.
Proof.
  unfold iter_queue_items. rewrite in_flat_map. split.
  - intros (s & Hs & Hin). unfold section_items in Hin.
    destruct (Dict.get s doc) as [[| | | | |items|]|] eqn:Hg;
      try contradiction.
    apply in_map_iff in Hin. destruct Hin as ([i x] & [= <- <- <-] & Hf).
    apply filter_In in Hf. destruct Hf as [He Hy].
    apply in_enumerate_from in He. destruct He as [_ He].
    rewrite Nat.sub_0_r in He. split; [exact Hs|]. exists items. auto.
  - intros (Hs & items & Hg & Hn & Hy). exists section. split; [exact Hs|].
    unfold section_items. rewrite Hg. apply in_map_iff.
    exists (idx, item). split; [reflexivity|]. apply filter_In.
    split; [|exact Hy]. apply in_enumerate_from.
    rewrite Nat.sub_0_r. split; [lia | exact Hn].
Qed.

(** *** What a visit can do to a node *)

Lemma find_seed_fields_unhashable (nd : dict) :
  hashable (dict_get_none "class_type" nd) = false ->
  find_seed_fields nd = Raise TypeError.
Proof.
  unfold find_seed_fields.
  destruct (dict_get_none "class_type" nd); simpl; try discriminate; auto.
Qed.

Lemma new_seed_for_counters (mode : string) (step : Z) (scope : string)
  (st : locals) :
  nodes_touched (snd (new_seed_for mode step scope st)) = nodes_touched st
  /\ seeds_changed (snd (new_seed_for mode step scope st)) = seeds_changed st.
Proof.
  unfold new_seed_for, next_seq.
  destruct (String.eqb mode "random").
  - now destruct (randint (rnd st)).
  - destruct (String.eqb mode "increment"); [|auto].
    now destruct (String.eqb scope "job").
Qed.

(** The visit of a node, case by case: the node is as it was and the
    counter of changes too, or its seed is overwritten and the change is
    counted; a node is counted as touched once at most. *)
Lemma reseed_node_cases (mode : string) (step : Z) (scope : string)
  (nd : dict) (st : locals) :
  exists node' st' o,
    reseed_node mode step scope (VDict nd) st = (node', st', o)
    /\ nodes_touched st <= nodes_touched st' <= nodes_touched st + 1
    /\ ((node' = VDict nd /\ seeds_changed st' = seeds_changed st)
        \/ (exists ins v z,
              Dict.get "inputs" nd = Some (VDict ins)
              /\ Dict.get "seed" ins = Some v
              /\ node' = VDict (Dict.set "inputs"
                                  (VDict (Dict.set "seed" (VInt z) ins)) nd)
              /\ seeds_changed st' = seeds_changed st + 1
              /\ nodes_touched st' = nodes_touched st + 1)).
Proof.
  unfold reseed_node.
  destruct (hashable (dict_get_none "class_type" nd)) eqn:Hh.
  - destruct (find_seed_fields_cases nd Hh)
      as [Hf | (ins & v & cur & Hi & Hs & Hp & Hc & Hf)]; rewrite Hf.
    + exists (VDict nd), st, None. split; [reflexivity|]. split; [lia|auto].
    + cbn [for_each]. unfold reseed_field.
      destruct (new_seed_for_counters mode step scope (incr_nodes_touched st))
        as [Ht Hsc].
      destruct (new_seed_for mode step scope (incr_nodes_touched st))
        as [[new_seed|e] st1]; simpl in Ht, Hsc.
      * destruct (Z.eqb new_seed cur).
        -- do 3 eexists. split; [reflexivity|]. split; [lia|]. left. auto.
        -- do 3 eexists. split; [reflexivity|]. simpl. split; [lia|].
           right. exists ins, v, new_seed.
           destruct (apply_seed_fields nd ins v new_seed Hi Hs Hc) as [E _].
           repeat split; auto; lia.
      * do 3 eexists. split; [reflexivity|]. split; [lia|]. left. auto.
  - rewrite (find_seed_fields_unhashable nd Hh).
    exists (VDict nd), st, (Some TypeError).
    split; [reflexivity|]. split; [lia|auto].
Qed.

(** X21.  The reseeder writes to [inputs["seed"]] and to nothing else of a
    node, in any mode and however the visit ends: the node keeps its keys
    and their order, every key other than [inputs] keeps its value, and
    [inputs] keeps its keys and every input other than [seed]. *)
Theorem reseed_node_frame (mode : string) (step : Z) (scope : string)
  (nd : dict) (st : locals) :
  exists nd' st' o,
    reseed_node mode step scope (VDict nd) st = (VDict nd', st', o)
    /\ keys nd' = keys nd
    /\ (forall k, k <> "inputs" -> Dict.get k nd' = Dict.get k nd)
    /\ keys (node_inputs nd') = keys (node_inputs nd)
    /\ (forall k, k <> "seed" ->
          Dict.get k (node_inputs nd') = Dict.get k (node_inputs nd)).
Proof.
  destruct (reseed_node_cases mode step scope nd st)
    as (node' & st' & o & Hr & _ &
        [[-> _] | (ins & v & z & Hi & Hs & -> & _)]).
  - exists nd, st', o. auto.
  - eexists _, st', o. split; [exact Hr|].
    unfold node_inputs. rewrite get_set_same, Hi. repeat split.
    + now apply (keys_set_present _ _ (VDict ins)).
    + intros k Hk. apply get_set_other. congruence.
    + now apply (keys_set_present _ _ v).
    + intros k Hk. apply get_set_other. congruence.
Qed.

End WithRuntime.
End SeedFacts.

(** ** The counters and the shape of the document *)

Module CounterFacts.
Import Reseed Observe ObserveJobs ObserveSeeds.
Import DictFacts LoopFacts ReseedFacts GraphFacts QueueFacts SeedFacts.

Section WithRuntime.
Context {RT : PyRuntime}.

Lemma step_ok_refl {A : Type} (x : A) (st : locals) : step_ok x st x st.
Proof. unfold step_ok. repeat split; auto; lia. Qed.

Lemma step_ok_cons {A : Type} (x x' : A) (r r' : list A)
  (s s1 s2 : locals) :
  step_ok x s x' s1 -> step_ok r s1 r' s2 ->
  step_ok (x :: r) s (x' :: r') s2.
Proof.
  unfold step_ok. intros (H1 & H2 & H3) (H4 & H5 & H6).
  repeat split; try lia.
  intros E. rewrite H3, H6 by lia. reflexivity.
Qed.

Lemma for_each_step_ok {A : Type}
  (body : A -> locals -> A * locals * outcome) :
  (forall x s,
      step_ok x s (fst (fst (body x s))) (snd (fst (body x s)))) ->
  forall l s,
    step_ok l s (fst (fst (for_each body l s)))
      (snd (fst (for_each body l s))).
Proof.
  intros Hb l. induction l as [|x r IH]; intros s; simpl.
  - apply step_ok_refl.
  - specialize (Hb x s).
    destruct (body x s) as [[x' s1] [e|]]; simpl in *.
    + apply (step_ok_cons x x' r r s s1 s1 Hb). apply step_ok_refl.
    + specialize (IH s1).
      destruct (for_each body r s1) as [[r' s2] o]. simpl in *.
      now apply (step_ok_cons x x' r r' s s1 s2).
Qed.

Lemma reseed_node_step_ok (mode : string) (step : Z) (scope : string)
  (node : value) (st : locals) :
  step_ok node st
    (fst (fst (reseed_node mode step scope node st)))
    (snd (fst (reseed_node mode step scope node st))).
Proof.
  destruct node as [| | | | | |nd]; try apply step_ok_refl.
  destruct (reseed_node_cases mode step scope nd st)
    as (node' & st' & o & Hr & Ht &
        [[-> Hs] | (ins & v & z & _ & _ & _ & Hs & Ht')]);
    rewrite Hr; unfold step_ok; simpl; repeat split; try lia; auto.
Qed.

Lemma reseed_item_step_ok (mode : string) (start step : Z) (scope : string)
  (item : value) (st : locals) :
  step_ok item st
    (fst (fst (reseed_item mode start step scope item st)))
    (snd (fst (reseed_item mode start step scope item st))).
Proof.
  unfold reseed_item.
  destruct (item_nodes item) as [nodes|] eqn:Hn; [|apply step_ok_refl].
  pose proof (for_each_step_ok (on_value (reseed_node mode step scope)))
    as H.
  specialize (H (fun kv s => ltac:(
    unfold on_value;
    pose proof (reseed_node_step_ok mode step scope (snd kv) s) as Hk;
    destruct (reseed_node mode step scope (snd kv) s) as [[v' s'] o];
    destruct kv as [k v]; simpl in *;
    destruct Hk as (A1 & A2 & A3); repeat split; auto;
    intros E; now rewrite (A3 E))) nodes (set_job_seed start st)).
  unfold for_each_value.
  destruct (for_each (on_value (reseed_node mode step scope)) nodes
              (set_job_seed start st)) as [[nodes' st'] o].
  simpl in *. destruct H as (A1 & A2 & A3). repeat split; auto.
  intros E. rewrite (A3 E). now apply with_item_nodes_same.
Qed.

Lemma reseed_section_step_ok (mode : string) (start step : Z)
  (scope : string) (section : string) (doc : dict) (st : locals) :
  step_ok doc st
    (fst (fst (reseed_section mode start step scope section (doc, st))))
    (snd (fst (reseed_section mode start step scope section (doc, st)))).
Proof.
  unfold reseed_section.
  destruct (Dict.get section doc) as [[| | | | |items|]|] eqn:Hg;
    try apply step_ok_refl.
  pose proof (for_each_step_ok (reseed_item mode start step scope)
                (reseed_item_step_ok mode start step scope) items st) as H.
  destruct (for_each (reseed_item mode start step scope) items st)
    as [[items' st'] o].
  simpl in *. destruct H as (A1 & A2 & A3). repeat split; auto.
  intros E. rewrite (A3 E). now apply set_get_id.
Qed.

Lemma reseed_sections_step_ok (mode : string) (start step : Z)
  (scope : string) (which : list string) (doc : dict) (st : locals) :
  step_ok doc st
    (fst (fst (for_keys (reseed_section mode start step scope) which
                 (doc, st))))
    (snd (fst (for_keys (reseed_section mode start step scope) which
                 (doc, st)))).
Proof.
  revert doc st. induction which as [|s r IH]; intros doc st;
    cbn [for_keys].
  - apply step_ok_refl.
  - pose proof (reseed_section_step_ok mode start step scope s doc st) as H.
    destruct (reseed_section mode start step scope s (doc, st))
      as [[doc1 st1] [e|]]; simpl in *; auto.
    specialize (IH doc1 st1).
    destruct (for_keys (reseed_section mode start step scope) r (doc1, st1))
      as [[doc2 st2] o]. simpl in *.
    unfold step_ok in *.
    destruct H as (A1 & A2 & A3). destruct IH as (B1 & B2 & B3).
    repeat split; try lia.
    intros E. rewrite B3, A3 by lia. reflexivity.
Qed.

Lemma reseed_document_step_ok (doc : dict) (mode : string) (start step : Z)
  (scope : string) (rng_seed : option Z)
  (only_sections : option (list string)) (doc' : dict) (t c : Z) :
  reseed_document doc mode start step scope rng_seed only_sections =
    (doc', Ok (t, c)) ->
  0 <= c /\ c <= t /\ (c = 0 -> doc' = doc).
Proof.
  unfold reseed_document.
  pose proof (reseed_sections_step_ok mode start step scope
                (valid_sections only_sections) doc
                (initial_locals start rng_seed)) as H.
  destruct (for_keys (reseed_section mode start step scope)
              (valid_sections only_sections)
              (doc, initial_locals start rng_seed))
    as [[d st] [e|]]; [discriminate|].
  intros [= <- <- <-]. unfold step_ok in H. simpl in H.
  destruct H as (A1 & A2 & A3).
  repeat split; auto; lia.
Qed.

(** X22.  The counters returned are ordered: [0 <= seeds_changed <=
    nodes_touched], in any mode and on any document. *)
Theorem counters_bounded (doc : dict) (mode : string) (start step : Z)
  (scope : string) (rng_seed : option Z)
  (only_sections : option (list string)) (doc' : dict) (t c : Z) :
  reseed_document doc mode start step scope rng_seed only_sections =
    (doc', Ok (t, c)) ->
  0 <= c <= t.
Proof.
  intros H.
  destruct (reseed_document_step_ok _ _ _ _ _ _ _ _ _ _ H) as (A & B & _).
  split; assumption.
Qed.

(** X23.  A call that reports no seed changed has left the document as it
    was, whole. *)
Theorem zero_changes_same_document (doc : dict) (mode : string)
  (start step : Z) (scope : string) (rng_seed : option Z)
  (only_sections : option (list string)) (doc' : dict) (t : Z) :
  reseed_document doc mode start step scope rng_seed only_sections =
    (doc', Ok (t, 0)) ->
  doc' = doc.
Proof.
  intros H.
  destruct (reseed_document_step_ok _ _ _ _ _ _ _ _ _ _ H) as (_ & _ & E).
  now apply E.
Qed.

(** *** The shape of the document *)

Lemma reseed_section_frame (mode : string) (start step : Z) (scope : string)
  (section : string) (doc : dict) (st : locals) :
  keys (fst (fst (reseed_section mode start step scope section (doc, st)))) =
    keys doc
  /\ (forall k, k <> section ->
        Dict.get k
          (fst (fst (reseed_section mode start step scope section (doc, st))))
        = Dict.get k doc)
  /\ (forall key,
        length (jobs_in
                  (fst (fst (reseed_section mode start step scope section
                               (doc, st)))) key) =
        length (jobs_in doc key)).
Proof.
  unfold reseed_section.
  destruct (Dict.get section doc) as [[| | | | |items|]|] eqn:Hg;
    simpl; auto.
  pose proof (for_each_length (reseed_item mode start step scope) items st)
    as Hl.
  destruct (for_each (reseed_item mode start step scope) items st)
    as [[items' st'] o]. simpl in *. repeat split.
  - now apply (keys_set_present _ _ (VList items)).
  - intros k Hk. apply get_set_other. congruence.
  - intros key. unfold jobs_in.
    destruct (String.eqb key section) eqn:E.
    + apply String.eqb_eq in E. subst key. now rewrite get_set_same, Hg.
    + apply String.eqb_neq in E.
      rewrite get_set_other by congruence. reflexivity.
Qed.

Lemma reseed_sections_frame (mode : string) (start step : Z) (scope : string)
  (which : list string) (doc : dict) (st : locals) :
  keys (fst (fst (for_keys (reseed_section mode start step scope) which
                    (doc, st)))) = keys doc
  /\ (forall k, ~ In k which ->
        Dict.get k
          (fst (fst (for_keys (reseed_section mode start step scope) which
                       (doc, st))))
        = Dict.get k doc)
  /\ (forall key,
        length (jobs_in
                  (fst (fst (for_keys (reseed_section mode start step scope)
                               which (doc, st)))) key) =
        length (jobs_in doc key)).
Proof.
  revert doc st. induction which as [|s r IH]; intros doc st;
    cbn [for_keys]; [simpl; auto|].
  destruct (reseed_section_frame mode start step scope s doc st)
    as (K1 & F1 & L1).
  destruct (reseed_section mode start step scope s (doc, st))
    as [[doc1 st1] [e|]]; simpl in *.
  - split; [exact K1|]. split; [|exact L1].
    intros k Hk. apply F1. intros ->. apply Hk. now left.
  - destruct (IH doc1 st1) as (K2 & F2 & L2).
    split; [congruence|]. split.
    + intros k Hk. rewrite F2 by (intros Hin; apply Hk; now right).
      apply F1. intros ->. apply Hk. now left.
    + intros key. now rewrite L2.
Qed.

(** X24.  The reseeder keeps the shape of the document, in any mode and
    however the call ends: the top-level keys and their order stay, a key
    that is not one of the sections asked for keeps its value, and every
    section keeps its number of jobs. *)
Theorem reseed_document_frame (doc : dict) (mode : string) (start step : Z)
  (scope : string) (rng_seed : option Z)
  (only_sections : option (list string)) :
  keys (fst (reseed_document doc mode start step scope rng_seed
               only_sections)) = keys doc
  /\ (forall k, ~ In k (valid_sections only_sections) ->
        Dict.get k (fst (reseed_document doc mode start step scope rng_seed
                           only_sections)) = Dict.get k doc)
  /\ (forall key,
        length (jobs_in
                  (fst (reseed_document doc mode start step scope rng_seed
                          only_sections)) key) =
        length (jobs_in doc key)).
Proof.
  unfold reseed_document.
  pose proof (reseed_sections_frame mode start step scope
                (valid_sections only_sections) doc
                (initial_locals start rng_seed)) as H.
  destruct (for_keys (reseed_section mode start step scope)
              (valid_sections only_sections)
              (doc, initial_locals start rng_seed)) as [[d st] [e|]];
    exact H.
Qed.

(** *** Documents without seed fields *)

Lemma for_each_quiet {A : Type}
  (body : A -> locals -> A * locals * outcome) (P : A -> Prop)
  (l : list A) (s : locals) :
  (forall x t, P x ->
     exists t', body x t = (x, t', None) /\ same_counters t t') ->
  Forall P l ->
  exists s', for_each body l s = (l, s', None) /\ same_counters s s'.
Proof.
  intros Hb HP. revert s.
  induction HP as [|x r Hx _ IH]; intros s; simpl.
  - exists s. split; [reflexivity | apply same_counters_refl].
  - destruct (Hb x s Hx) as (s1 & E1 & R1). rewrite E1.
    destruct (IH s1) as (s2 & E2 & R2). rewrite E2.
    exists s2. split; [reflexivity|].
    now apply (same_counters_trans _ s1).
Qed.

Lemma quiet_node (mode : string) (step : Z) (scope : string)
  (node : value) (st : locals) :
  (class_type_hashable node && negb (has_seed_field node))%bool = true ->
  reseed_node mode step scope node st = (node, st, None).
Proof.
  intros H. apply andb_prop in H. destruct H as [Hh Hf].
  apply negb_true_iff in Hf.
  destruct node as [| | | | | |nd]; try reflexivity.
  simpl in Hh. unfold has_seed_field, node_fields in Hf.
  unfold reseed_node.
  destruct (find_seed_fields_cases nd Hh)
    as [E | (ins & v & cur & _ & _ & _ & _ & E)]; rewrite E in *.
  - reflexivity.
  - discriminate.
Qed.

Lemma quiet_item (mode : string) (start step : Z) (scope : string)
  (item : value) (st : locals) :
  Forall (fun n => (class_type_hashable n && negb (has_seed_field n))%bool
                   = true)
    (map snd (iter_nodes_from_item item)) ->
  exists st',
    reseed_item mode start step scope item st = (item, st', None)
    /\ same_counters st st'.
Proof.
  intros H. unfold reseed_item, iter_nodes_from_item in *.
  destruct (item_nodes item) as [nodes|] eqn:Hn.
  - destruct (for_each_quiet (on_value (reseed_node mode step scope))
                (fun kv => isinstance_dict (snd kv) = true ->
                   (class_type_hashable (snd kv)
                    && negb (has_seed_field (snd kv)))%bool = true)
                nodes (set_job_seed start st)) as (st' & E & R).
    + intros [k v] t Hq. simpl in Hq. exists t. unfold on_value. simpl.
      split; [|apply same_counters_refl].
      destruct (isinstance_dict v) eqn:Hd.
      * now rewrite (quiet_node mode step scope v t (Hq eq_refl)).
      * destruct v; try reflexivity. discriminate.
    + clear Hn. induction nodes as [|[k v] r IH]; constructor.
      * simpl. intros Hd. simpl in H. rewrite Hd in H. now inversion H.
      * apply IH. simpl in H. destruct (isinstance_dict v); auto.
        now inversion H.
    + unfold for_each_value. rewrite E.
      exists st'. rewrite (with_item_nodes_same _ _ Hn).
      split; [reflexivity|].
      apply (same_counters_trans _ (set_job_seed start st)); auto.
      split; reflexivity.
  - exists st. split; [reflexivity | apply same_counters_refl].
Qed.

(** X25.  Nothing to reseed.  When no node that the traversal visits has a
    seed field, and every [class_type] can be looked up, the call returns
    [(0, 0)] and the document as it was, in any mode, known or not. *)
Theorem no_seed_fields_no_effect (doc : dict) (mode : string)
  (start step : Z) (scope : string) (rng_seed : option Z)
  (only_sections : option (list string)) :
  no_seed_fields doc (valid_sections only_sections) = true ->
  reseed_document doc mode start step scope rng_seed only_sections =
  (doc, Ok (0, 0)).
Proof.
  unfold no_seed_fields, reseed_document. intros H.
  enough (G : forall which st,
             forallb (fun n => (class_type_hashable n
                                && negb (has_seed_field n))%bool)
               (visited_nodes doc which) = true ->
             exists st',
               for_keys (reseed_section mode start step scope) which
                 (doc, st) = ((doc, st'), None)
               /\ same_counters st st').
  { destruct (G _ (initial_locals start rng_seed) H) as (st' & E & [R1 R2]).
    rewrite E. simpl in R1, R2. now rewrite R1, R2. }
  clear H. intros which. induction which as [|s r IH]; intros st H.
  - exists st. split; [reflexivity | apply same_counters_refl].
  - unfold visited_nodes, iter_queue_items in *. simpl in H.
    rewrite flat_map_app, forallb_app in H.
    apply andb_prop in H. destruct H as [H1 H2].
    cbn [for_keys]. unfold reseed_section at 1.
    destruct (Dict.get s doc) as [[| | | | |items|]|] eqn:Hg;
      try (now apply IH).
    rewrite (section_nodes doc s items Hg) in H1.
    destruct (for_each_quiet (reseed_item mode start step scope)
                (fun item =>
                   Forall (fun n => (class_type_hashable n
                                     && negb (has_seed_field n))%bool = true)
                     (map snd (iter_nodes_from_item item)))
                items st) as (st1 & E1 & R1).
    + intros x t Hx. now apply quiet_item.
    + clear Hg. induction items as [|x q IHq]; constructor;
        simpl in H1; rewrite forallb_app in H1;
        apply andb_prop in H1; destruct H1 as [Ha Hb].
      * apply Forall_forall. intros n Hn.
        rewrite forallb_forall in Ha. auto.
      * now apply IHq.
    + rewrite E1. cbn iota beta. rewrite (set_get_id _ _ _ Hg).
      destruct (IH st1 H2) as (st2 & E2 & R2).
      exists st2. split; [exact E2|].
      now apply (same_counters_trans _ st1).
Qed.

End WithRuntime.
End CounterFacts.

(** ** Parameters a mode does not read *)

Module ModeFacts.
Import Reseed Observe ObserveSeeds DictFacts LoopFacts ReseedFacts.

(** Two loops whose bodies agree step by step, from states that a relation
    ties, end alike. *)
Lemma for_each_sim {A S : Type} (b1 b2 : A -> S -> A * S * outcome)
  (R : S -> S -> Prop) :
  (forall x s1 s2, R s1 s2 ->
     fst (fst (b1 x s1)) = fst (fst (b2 x s2))
     /\ snd (b1 x s1) = snd (b2 x s2)
     /\ R (snd (fst (b1 x s1))) (snd (fst (b2 x s2)))) ->
  forall l s1 s2, R s1 s2 ->
    fst (fst (for_each b1 l s1)) = fst (fst (for_each b2 l s2))
    /\ snd (for_each b1 l s1) = snd (for_each b2 l s2)
    /\ R (snd (fst (for_each b1 l s1))) (snd (fst (for_each b2 l s2))).
Proof.
  intros Hb l. induction l as [|x r IH]; intros s1 s2 HR; simpl; auto.
  destruct (Hb x s1 s2 HR) as (E1 & E2 & E3).
  destruct (b1 x s1) as [[x1 t1] o1]. destruct (b2 x s2) as [[x2 t2] o2].
  simpl in *. subst x2 o2.
  destruct o1 as [e|]; simpl; auto.
  destruct (IH t1 t2 E3) as (F1 & F2 & F3).
  destruct (for_each b1 r t1) as [[r1 u1] p1].
  destruct (for_each b2 r t2) as [[r2 u2] p2].
  simpl in *. subst r2 p2. auto.
Qed.

Section WithRuntime.
Context {RT : PyRuntime}.

Section Simulation.
Variables (mode1 mode2 : string) (start1 start2 step1 step2 : Z)
  (scope1 scope2 : string).
Variable R : locals -> locals -> Prop.

Hypothesis R_touch : forall a b,
  R a b -> R (incr_nodes_touched a) (incr_nodes_touched b).
Hypothesis R_change : forall a b,
  R a b -> R (incr_seeds_changed a) (incr_seeds_changed b).
Hypothesis R_job : forall a b,
  R a b -> R (set_job_seed start1 a) (set_job_seed start2 b).
Hypothesis R_new : forall a b, R a b ->
  fst (new_seed_for mode1 step1 scope1 a) =
    fst (new_seed_for mode2 step2 scope2 b)
  /\ R (snd (new_seed_for mode1 step1 scope1 a))
       (snd (new_seed_for mode2 step2 scope2 b)).

Lemma sim_node (node : value) (a b : locals) :
  R a b ->
  fst (fst (reseed_node mode1 step1 scope1 node a)) =
    fst (fst (reseed_node mode2 step2 scope2 node b))
  /\ snd (reseed_node mode1 step1 scope1 node a) =
     snd (reseed_node mode2 step2 scope2 node b)
  /\ R (snd (fst (reseed_node mode1 step1 scope1 node a)))
       (snd (fst (reseed_node mode2 step2 scope2 node b))).
Proof.
  intros HR. destruct node as [| | | | | |nd]; simpl; auto.
  destruct (hashable (dict_get_none "class_type" nd)) eqn:Hh.
  - destruct (find_seed_fields_cases nd Hh)
      as [E | (ins & v & cur & _ & _ & _ & _ & E)]; rewrite E; simpl; auto.
    destruct (R_new _ _ (R_touch a b HR)) as [N1 N2].
    destruct (new_seed_for mode1 step1 scope1 (incr_nodes_touched a))
      as [r1 a1].
    destruct (new_seed_for mode2 step2 scope2 (incr_nodes_touched b))
      as [r2 b1].
    simpl in *. subst r2. destruct r1 as [z|e]; simpl; auto.
    destruct (Z.eqb z cur); simpl; auto.
  - unfold find_seed_fields.
    destruct (dict_get_none "class_type" nd); simpl in *;
      try discriminate; auto.
Qed.

Lemma sim_item (item : value) (a b : locals) :
  R a b ->
  fst (fst (reseed_item mode1 start1 step1 scope1 item a)) =
    fst (fst (reseed_item mode2 start2 step2 scope2 item b))
  /\ snd (reseed_item mode1 start1 step1 scope1 item a) =
     snd (reseed_item mode2 start2 step2 scope2 item b)
  /\ R (snd (fst (reseed_item mode1 start1 step1 scope1 item a)))
       (snd (fst (reseed_item mode2 start2 step2 scope2 item b))).
Proof.
  intros HR. unfold reseed_item.
  destruct (item_nodes item) as [nodes|]; simpl; auto.
  unfold for_each_value.
  destruct (for_each_sim (on_value (reseed_node mode1 step1 scope1))
              (on_value (reseed_node mode2 step2 scope2)) R)
    with (l := nodes) (s1 := set_job_seed start1 a)
         (s2 := set_job_seed start2 b) as (E1 & E2 & E3).
  - intros [k v] s1 s2 Hs. unfold on_value. simpl.
    destruct (sim_node v s1 s2 Hs) as (F1 & F2 & F3).
    destruct (reseed_node mode1 step1 scope1 v s1) as [[v1 t1] o1].
    destruct (reseed_node mode2 step2 scope2 v s2) as [[v2 t2] o2].
    simpl in *. subst. auto.
  - now apply R_job.
  - destruct (for_each (on_value (reseed_node mode1 step1 scope1)) nodes
                (set_job_seed start1 a)) as [[n1 t1] o1].
    destruct (for_each (on_value (reseed_node mode2 step2 scope2)) nodes
                (set_job_seed start2 b)) as [[n2 t2] o2].
    simpl in *. subst. auto.
Qed.

Lemma sim_sections (which : list string) (doc : dict) (a b : locals) :
  R a b ->
  fst (fst (for_keys (reseed_section mode1 start1 step1 scope1) which
              (doc, a))) =
    fst (fst (for_keys (reseed_section mode2 start2 step2 scope2) which
                (doc, b)))
  /\ snd (for_keys (reseed_section mode1 start1 step1 scope1) which
            (doc, a)) =
     snd (for_keys (reseed_section mode2 start2 step2 scope2) which
            (doc, b))
  /\ R (snd (fst (for_keys (reseed_section mode1 start1 step1 scope1) which
                    (doc, a))))
       (snd (fst (for_keys (reseed_section mode2 start2 step2 scope2) which
                    (doc, b)))).
Proof.
  revert doc a b. induction which as [|s r IH]; intros doc a b HR;
    cbn [for_keys]; [simpl; auto|].
  assert (Hs : fst (fst (reseed_section mode1 start1 step1 scope1 s (doc, a)))
               = fst (fst (reseed_section mode2 start2 step2 scope2 s
                             (doc, b)))
             /\ snd (reseed_section mode1 start1 step1 scope1 s (doc, a)) =
                snd (reseed_section mode2 start2 step2 scope2 s (doc, b))
             /\ R (snd (fst (reseed_section mode1 start1 step1 scope1 s
                               (doc, a))))
                  (snd (fst (reseed_section mode2 start2 step2 scope2 s
                               (doc, b))))).
  { unfold reseed_section.
    destruct (Dict.get s doc) as [[| | | | |items|]|]; simpl; auto.
    destruct (for_each_sim (reseed_item mode1 start1 step1 scope1)
                (reseed_item mode2 start2 step2 scope2) R)
      with (l := items) (s1 := a) (s2 := b) as (E1 & E2 & E3); auto.
    - intros x s1 s2. apply sim_item.
    - destruct (for_each (reseed_item mode1 start1 step1 scope1) items a)
        as [[i1 t1] o1].
      destruct (for_each (reseed_item mode2 start2 step2 scope2) items b)
        as [[i2 t2] o2].
      simpl in *. subst. auto. }
  destruct Hs as (E1 & E2 & E3).
  destruct (reseed_section mode1 start1 step1 scope1 s (doc, a))
    as [[d1 a1] o1].
  destruct (reseed_section mode2 start2 step2 scope2 s (doc, b))
    as [[d2 b1] o2].
  simpl in *. subst d2 o2. destruct o1 as [e|]; simpl; auto.
Qed.

End Simulation.

Lemma same_result (doc1 doc2 : dict) (a b : locals) (o1 o2 : outcome) :
  doc1 = doc2 -> o1 = o2 ->
  nodes_touched a = nodes_touched b -> seeds_changed a = seeds_changed b ->
  match o1 with
  | None => (doc1, Ok (nodes_touched a, seeds_changed a))
  | Some e => (doc1, Raise e)
  end =
  match o2 with
  | None => (doc2, Ok (nodes_touched b, seeds_changed b))
  | Some e => (doc2, Raise e)
  end.
Proof. intros -> -> -> ->. reflexivity. Qed.

(** X26.  Random mode does not read [start], [step] or [scope]: two calls
    that differ only in them leave the same document and return the same
    counters. *)
Theorem random_ignores_sequence (doc : dict) (start step start' step' : Z)
  (scope scope' : string) (rng_seed : option Z)
  (only_sections : option (list string)) :
  reseed_document doc "random" start step scope rng_seed only_sections =
  reseed_document doc "random" start' step' scope' rng_seed only_sections.
Proof.
  unfold reseed_document.
  destruct (sim_sections "random" "random" start start' step step'
              scope scope' same_random)
    with (which := valid_sections only_sections) (doc := doc)
         (a := initial_locals start rng_seed)
         (b := initial_locals start' rng_seed) as (E1 & E2 & E3 & E4 & E5).
  - intros a b (H1 & H2 & H3). repeat split; simpl; auto. congruence.
  - intros a b (H1 & H2 & H3). repeat split; simpl; auto. congruence.
  - intros a b (H1 & H2 & H3). repeat split; simpl; auto.
  - intros a b (H1 & H2 & H3). unfold new_seed_for. simpl. rewrite H1.
    destruct (randint (rnd b)) as [v r]. simpl. repeat split; auto.
  - repeat split; reflexivity.
  - destruct (for_keys (reseed_section "random" start step scope)
                (valid_sections only_sections)
                (doc, initial_locals start rng_seed)) as [[d1 a1] o1].
    destruct (for_keys (reseed_section "random" start' step' scope')
                (valid_sections only_sections)
                (doc, initial_locals start' rng_seed)) as [[d2 b1] o2].
    simpl in *. now apply same_result.
Qed.

(** X27.  Increment mode does not read the random source: two calls that
    differ only in [rng_seed] leave the same document and return the same
    counters. *)
Theorem increment_ignores_rng_seed (doc : dict) (start step : Z)
  (scope : string) (rng_seed rng_seed' : option Z)
  (only_sections : option (list string)) :
  reseed_document doc "increment" start step scope rng_seed only_sections =
  reseed_document doc "increment" start step scope rng_seed' only_sections.
Proof.
  unfold reseed_document.
  destruct (sim_sections "increment" "increment" start start step step
              scope scope same_sequence)
    with (which := valid_sections only_sections) (doc := doc)
         (a := initial_locals start rng_seed)
         (b := initial_locals start rng_seed')
    as (E1 & E2 & E3 & E4 & E5 & E6).
  - intros a b (H1 & H2 & H3 & H4). repeat split; simpl; auto. congruence.
  - intros a b (H1 & H2 & H3 & H4). repeat split; simpl; auto. congruence.
  - intros a b (H1 & H2 & H3 & H4). repeat split; simpl; auto.
  - intros a b (H1 & H2 & H3 & H4). unfold new_seed_for, next_seq. simpl.
    destruct (String.eqb scope "job"); simpl; rewrite ?H1, ?H2;
      repeat split; auto.
  - repeat split; reflexivity.
  - destruct (for_keys (reseed_section "increment" start step scope)
                (valid_sections only_sections)
                (doc, initial_locals start rng_seed)) as [[d1 a1] o1].
    destruct (for_keys (reseed_section "increment" start step scope)
                (valid_sections only_sections)
                (doc, initial_locals start rng_seed')) as [[d2 b1] o2].
    simpl in *. now apply same_result.
Qed.

End WithRuntime.
End ModeFacts.

(** ** Running the reseeder again, and the range of random seeds *)

Module RerunFacts.
Import Reseed Observe ObserveJobs ObserveSeeds.
Import DictFacts LoopFacts ReseedFacts GraphFacts SeedFacts CounterFacts.

Lemma for_each_preserve {A S : Type} (body : A -> S -> A * S * outcome)
  (P : A -> Prop) :
  (forall x s, P x -> P (fst (fst (body x s)))) ->
  forall l s, Forall P l -> Forall P (fst (fst (for_each body l s))).
Proof.
  intros Hb l. induction l as [|x r IH]; intros s HP; simpl; auto.
  inversion HP as [|? ? Hx Hr]; subst.
  specialize (Hb x s Hx).
  destruct (body x s) as [[x' s1] [e|]]; simpl in *.
  - constructor; auto.
  - specialize (IH s1 Hr).
    destruct (for_each body r s1) as [[r' s2] o]. simpl in *.
    constructor; auto.
Qed.

Section WithRuntime.
Context {RT : PyRuntime}.

(** *** The class types stay *)

Lemma reseed_node_hashable (mode : string) (step : Z) (scope : string)
  (node : value) (st : locals) :
  class_type_hashable node = true ->
  class_type_hashable (fst (fst (reseed_node mode step scope node st))) = true.
Proof.
  destruct node as [| | | | | |nd]; auto. intros H.
  destruct (reseed_node_cases mode step scope nd st)
    as (node' & st' & o & Hr & _ &
        [[-> _] | (ins & v & z & _ & _ & -> & _)]); rewrite Hr; simpl; auto.
  now rewrite class_type_after_inputs.
Qed.

Lemma hashable_filtered (nodes : dict) :
  Forall (fun kv => class_type_hashable (snd kv) = true) nodes ->
  Forall (fun n => class_type_hashable n = true)
    (map snd (filter (fun kv => isinstance_dict (snd kv)) nodes)).
Proof.
  induction nodes as [|[k v] r IH]; simpl; intros H; [constructor|].
  inversion H; subst. destruct (isinstance_dict v); simpl; auto.
Qed.

Lemma reseed_item_hashable (mode : string) (start step : Z) (scope : string)
  (item : value) (st : locals) :
  Forall (fun n => class_type_hashable n = true)
    (map snd (iter_nodes_from_item item)) ->
  Forall (fun n => class_type_hashable n = true)
    (map snd (iter_nodes_from_item
                (fst (fst (reseed_item mode start step scope item st))))).
Proof.
  unfold reseed_item, iter_nodes_from_item.
  destruct (item_nodes item) as [nodes|] eqn:Hn; simpl;
    [|now rewrite Hn].
  intros H. apply hashable_entries in H.
  pose proof (for_each_preserve (on_value (reseed_node mode step scope))
                (fun kv => class_type_hashable (snd kv) = true)) as G.
  specialize (G (fun kv s Hk => ltac:(
    unfold on_value;
    pose proof (reseed_node_hashable mode step scope (snd kv) s Hk) as Hq;
    destruct (reseed_node mode step scope (snd kv) s) as [[v' s'] o];
    exact Hq)) nodes (set_job_seed start st) H).
  unfold for_each_value.
  destruct (for_each (on_value (reseed_node mode step scope)) nodes
              (set_job_seed start st)) as [[nodes' st'] o].
  simpl in *. rewrite (item_nodes_with _ _ nodes' Hn).
  now apply hashable_filtered.
Qed.

Lemma section_items_agree (doc1 doc2 : dict) (s : string) :
  Dict.get s doc1 = Dict.get s doc2 ->
  section_items doc1 s = section_items doc2 s.
Proof. intros H. unfold section_items. now rewrite H. Qed.

Lemma reseed_section_hashable (mode : string) (start step : Z)
  (scope : string) (s : string) (doc : dict) (st : locals) :
  Forall (fun n => class_type_hashable n = true)
    (visited_nodes doc [s]) ->
  Forall (fun n => class_type_hashable n = true)
    (visited_nodes
       (fst (fst (reseed_section mode start step scope s (doc, st)))) [s]).
Proof.
  unfold visited_nodes, iter_queue_items, reseed_section. simpl.
  rewrite !app_nil_r.
  destruct (Dict.get s doc) as [[| | | | |items|]|] eqn:Hg; simpl; auto.
  rewrite (section_nodes doc s items Hg). intros H.
  pose proof (for_each_preserve (reseed_item mode start step scope)
                (fun item => Forall (fun n => class_type_hashable n = true)
                               (map snd (iter_nodes_from_item item)))) as G.
  specialize (G (fun x t => reseed_item_hashable mode start step scope x t)
                items st).
  destruct (for_each (reseed_item mode start step scope) items st)
    as [[items' st'] o]. simpl in *.
  rewrite (section_nodes _ s items') by apply get_set_same.
  assert (Hi : Forall (fun item =>
                 Forall (fun n => class_type_hashable n = true)
                   (map snd (iter_nodes_from_item item))) items).
  { clear -H. induction items as [|x r IH]; constructor; simpl in H;
      apply Forall_app in H; tauto. }
  specialize (G Hi). clear -G.
  induction G as [|x r Hx _ IH]; simpl; auto.
  apply Forall_app. auto.
Qed.

Lemma reseed_sections_hashable (mode : string) (start step : Z)
  (scope : string) (which : list string) :
  NoDup which ->
  forall doc st,
    Forall (fun n => class_type_hashable n = true)
      (visited_nodes doc which) ->
    Forall (fun n => class_type_hashable n = true)
      (visited_nodes
         (fst (fst (for_keys (reseed_section mode start step scope) which
                      (doc, st)))) which).
Proof.
  intros Hnd. induction Hnd as [|s rest Hs Hnd IH]; intros doc st H;
    [constructor|].
  assert (Hsplit : forall d,
            visited_nodes d (s :: rest) =
            (visited_nodes d [s] ++ visited_nodes d rest)%list).
  { intros d. unfold visited_nodes, iter_queue_items. simpl.
    now rewrite app_nil_r, flat_map_app. }
  rewrite Hsplit in H. apply Forall_app in H. destruct H as [H1 H2].
  cbn [for_keys].
  pose proof (reseed_section_hashable mode start step scope s doc st H1)
    as G1.
  destruct (reseed_section_frame mode start step scope s doc st)
    as (_ & F1 & _).
  destruct (reseed_section mode start step scope s (doc, st))
    as [[doc1 st1] o1]. simpl in *.
  assert (Hrest : visited_nodes doc1 rest = visited_nodes doc rest).
  { unfold visited_nodes. f_equal. apply iter_queue_items_agree.
    intros k Hk. apply F1. intros ->. contradiction. }
  destruct o1 as [e|]; simpl.
  - rewrite Hsplit. apply Forall_app. split; auto. now rewrite Hrest.
  - rewrite <- Hrest in H2. specialize (IH doc1 st1 H2).
    destruct (reseed_sections_frame mode start step scope rest doc1 st1)
      as (_ & F2 & _).
    destruct (for_keys (reseed_section mode start step scope) rest
                (doc1, st1)) as [[doc2 st2] o2]. simpl in *.
    rewrite Hsplit. apply Forall_app. split; auto.
    unfold visited_nodes, iter_queue_items in *. simpl in *.
    rewrite app_nil_r in *.
    now rewrite (section_items_agree doc2 doc1 s (F2 s Hs)).
Qed.

(** *** A second run in increment mode *)

Lemma assign_jobs_lengths (mode : string) (start step : Z) (scope : string)
  (jobs : list (list (value * Z))) (st : locals) :
  map (@length (value * Z))
    (fst (assign_jobs mode start step scope jobs st)) =
  map (@length (value * Z)) jobs.
Proof.
  revert st. induction jobs as [|j r IH]; intros st; simpl; auto.
  pose proof (assign_length mode step scope j (set_job_seed start st)) as Hl.
  destruct (assign mode step scope j (set_job_seed start st)) as [j' st1].
  specialize (IH st1).
  destruct (assign_jobs mode start step scope r st1) as [r' st2].
  simpl in *. now rewrite Hl, IH.
Qed.

Lemma count_changed_same (l : list Z) : count_changed l l = 0%nat.
Proof.
  induction l as [|a r IH]; simpl; auto. now rewrite Z.eqb_refl, IH.
Qed.

Lemma concat_length_shape {A B : Type} (l1 : list (list A))
  (l2 : list (list B)) :
  map (@length A) l1 = map (@length B) l2 ->
  length (concat l1) = length (concat l2).
Proof.
  revert l2. induction l1 as [|a r IH]; intros [|b q] H; try discriminate;
    simpl; auto.
  injection H as Ha Hr. rewrite !length_app, Ha. f_equal. now apply IH.
Qed.

(** In increment mode the seeds assigned are a function of the number of
    fields of each job. *)
Lemma increment_seeds_of_shape (start step : Z) (scope : string)
  (jobs1 jobs2 : list (list (value * Z))) (s1 s2 : locals) :
  map (@length (value * Z)) jobs1 = map (@length (value * Z)) jobs2 ->
  seq_val s1 = seq_val s2 ->
  map snd (concat (fst (assign_jobs "increment" start step scope jobs1 s1))) =
  map snd (concat (fst (assign_jobs "increment" start step scope jobs2 s2))).
Proof.
  intros Hl Hs. rewrite <- !seeds_of_fields.
  destruct (String.eqb scope "job") eqn:E.
  - apply String.eqb_eq in E. subst scope.
    rewrite !assign_jobs_increment_job. f_equal.
    rewrite <- (map_map (@length (value * Z))
                  (fun n => arithmetic start step n) jobs1).
    rewrite <- (map_map (@length (value * Z))
                  (fun n => arithmetic start step n) jobs2).
    now rewrite Hl.
  - destruct (assign_jobs_increment_global start step scope jobs1 s1 E)
      as [H1 _].
    destruct (assign_jobs_increment_global start step scope jobs2 s2 E)
      as [H2 _].
    rewrite H1, H2, Hs. f_equal. now apply concat_length_shape.
Qed.

(** X28.  A second run in increment mode finds nothing to do.  After a call
    in increment mode has returned, the same call on the document it left
    returns that document unchanged, with the same [nodes_touched] and
    with [seeds_changed] equal to 0. *)
Theorem increment_second_run (doc doc' : dict) (start step : Z)
  (scope : string) (rng_seed rng_seed' : option Z)
  (only_sections : option (list string)) (t c : Z) :
  NoDup (valid_sections only_sections) ->
  forallb class_type_hashable
    (visited_nodes doc (valid_sections only_sections)) = true ->
  reseed_document doc "increment" start step scope rng_seed only_sections =
    (doc', Ok (t, c)) ->
  reseed_document doc' "increment" start step scope rng_seed' only_sections =
    (doc', Ok (t, 0)).
Proof.
  intros Hnd Hh Hrun.
  destruct (reseed_document_assign doc "increment" start step scope
              rng_seed only_sections (or_intror eq_refl) Hnd Hh)
    as (d1 & Hr1 & Hv1).
  rewrite Hrun in Hr1. injection Hr1 as <- Ht _.
  assert (Hh' : forallb class_type_hashable
                  (visited_nodes doc' (valid_sections only_sections)) = true).
  { apply forallb_forall. apply Forall_forall.
    assert (Hd : doc' =
                 fst (fst (for_keys
                             (reseed_section "increment" start step scope)
                             (valid_sections only_sections)
                             (doc, initial_locals start rng_seed)))).
    { unfold reseed_document in Hrun.
      destruct (for_keys (reseed_section "increment" start step scope)
                  (valid_sections only_sections)
                  (doc, initial_locals start rng_seed)) as [[d st] [e|]];
        now injection Hrun as <-. }
    rewrite Hd. apply reseed_sections_hashable; auto.
    apply Forall_forall. rewrite forallb_forall in Hh. exact Hh. }
  destruct (reseed_document_assign doc' "increment" start step scope
              rng_seed' only_sections (or_intror eq_refl) Hnd Hh')
    as (d2 & Hr2 & Hv2).
  set (J := job_fields doc (valid_sections only_sections)) in *.
  set (J' := job_fields doc' (valid_sections only_sections)) in *.
  destruct (assign_jobs_counters "increment" start step scope J
              (initial_locals start rng_seed)) as (T1 & _ & _).
  destruct (assign_jobs_counters "increment" start step scope J'
              (initial_locals start rng_seed')) as (T2 & C2 & _).
  assert (Hshape : map (@length (value * Z)) J' = map (@length (value * Z)) J).
  { subst J'. rewrite Hv1. apply assign_jobs_lengths. }
  assert (Hseeds : map snd (concat
                     (fst (assign_jobs "increment" start step scope J'
                             (initial_locals start rng_seed')))) =
                   map snd (concat J')).
  { transitivity
      (map snd (concat
         (fst (assign_jobs "increment" start step scope J
                 (initial_locals start rng_seed))))).
    - apply increment_seeds_of_shape; [exact Hshape | reflexivity].
    - now rewrite <- Hv1. }
  rewrite Hseeds, count_changed_same in C2. simpl in C2, T1, T2.
  rewrite (concat_length_shape J' J Hshape) in T2.
  rewrite C2, T2 in Hr2. rewrite <- T1, <- Ht in Hr2.
  destruct (reseed_document_step_ok _ _ _ _ _ _ _ _ _ _ Hr2) as (_ & _ & E).
  now rewrite (E eq_refl) in Hr2.
Qed.

(** *** Random mode *)




End WithRuntime.
End RerunFacts.

(** ** Instances, and what the prefix rule ensures *)

Module InstanceFacts.
Import Reframe Reseed Observe ObserveJobs ObserveSeeds.
Import ReseedFacts ReframeFacts GraphFacts MirrorFacts QueueFacts.
Import SeedFacts CounterFacts ModeFacts RerunFacts.
Import ExampleRuntime.





Lemma fix_graph_node_frame_example :
  exists nd' o,
    fix_graph_node 145 (VDict [("class_type", VStr "SaveVideo")]) =
      (VDict nd', o)
    /\ Dict.get "class_type" nd' = Some (VStr "SaveVideo")
    /\ keys nd' = ["class_type"; "inputs"].
Proof.
  destruct (fix_graph_node_frame [("class_type", VStr "SaveVideo")] 145)
    as (nd' & o & H & Hf & Hk).
  exists nd', o. split; [exact H|]. split.
  - apply (Hf "class_type"). discriminate.
  - vm_compute in H. injection H as <- _. reflexivity.
Defined.

Lemma fix_widgets_frame_example :
  nth_error (fix_widgets (VStr "SaveVideo") [VStr "clip"; VInt 16] 145) 1 =
  Some (VInt 16).
Proof.
  apply (proj2 (fix_widgets_frame (VStr "SaveVideo")
                  [VStr "clip"; VInt 16] 145) 1%nat); discriminate.
Defined.

Lemma fix_workflow_nodes_frame_example :
  Dict.get "client_id"
    (fst (fix_workflow_nodes MoreExamples.sizing_meta 145)) =
  Some (VStr "ui").
Proof.
  apply (proj2 (fix_workflow_nodes_frame MoreExamples.sizing_meta 145)
           "client_id"). discriminate.
Defined.

Lemma rewrite_sizes_both_views_example :
  Forall (fun job =>
            Forall (canonical_sized 145) (job_graph_nodes job)
            /\ Forall (mirror_sized 145) (job_mirror_nodes job))
    (all_jobs (fst (process_saved_queue MoreExamples.sizing_queue 145))).
Proof.
  apply (rewrite_sizes_both_views MoreExamples.sizing_queue
           (fst (process_saved_queue MoreExamples.sizing_queue 145)) 145).
  reflexivity.
Defined.

Lemma process_saved_queue_frame_example :
  Dict.get "client"
    (fst (process_saved_queue MoreExamples.sizing_queue 145)) =
  Some (VStr "ui").
Proof.
  apply (proj1 (proj2 (process_saved_queue_frame
                         MoreExamples.sizing_queue 145)) "client").
  simpl. intuition discriminate.
Defined.

Lemma fix_job_entry_frame_example :
  exists job' o,
    fix_job_entry (VList MoreExamples.sizing_job) 145 = (VList job', o)
    /\ nth_error job' 4 = Some (VList [VStr "12"]).
Proof.
  destruct (fix_job_entry_frame MoreExamples.sizing_job 145)
    as (job' & o & H & _ & Hn).
  exists job', o. split; [exact H|].
  apply (Hn 4%nat); discriminate.
Defined.

Lemma apply_seed_read_back_example :
  read_path (apply_seed (VDict MoreExamples.sampler_node) seed_path 42)
    seed_path = VInt 42.
Proof.
  apply (apply_seed_read_back (VDict MoreExamples.sampler_node)
           seed_path 42).
  - discriminate.
  - reflexivity.
Defined.

Lemma apply_seed_needs_path_example :
  apply_seed (VDict [("class_type", VStr "KSampler")]) seed_path 42 =
  VDict [("class_type", VStr "KSampler")].
Proof.
  apply (apply_seed_needs_path (VDict [("class_type", VStr "KSampler")])
           seed_path 42).
  reflexivity.
Defined.

Lemma iter_queue_items_yields_example :
  In ("queue_pending", 1%nat,
      Examples.job [("3", Examples.sampler 7); ("4", Examples.sampler 8)])
    (iter_queue_items Examples.two_sampler_jobs
       ["queue_running"; "queue_pending"]).
Proof.
  apply (proj2 (iter_queue_items_yields Examples.two_sampler_jobs
                  ["queue_running"; "queue_pending"] "queue_pending" 1%nat
                  (Examples.job [("3", Examples.sampler 7);
                                 ("4", Examples.sampler 8)]))).
  split.
  - simpl. auto.
  - eexists. split; [reflexivity|]. split; reflexivity.
Defined.

Lemma reseed_node_frame_example :
  exists nd' st' o,
    reseed_node "increment" 1 "global" (VDict MoreExamples.sampler_node)
      (initial_locals 100 None) = (VDict nd', st', o)
    /\ Dict.get "steps" (node_inputs nd') = Some (VInt 20).
Proof.
  destruct (reseed_node_frame "increment" 1 "global"
              MoreExamples.sampler_node (initial_locals 100 None))
    as (nd' & st' & o & H & _ & _ & _ & Hi).
  exists nd', st', o. split; [exact H|].
  apply (Hi "steps"). discriminate.
Defined.

Lemma counters_bounded_example : 0 <= 2 <= 4.
Proof.
  apply (counters_bounded Examples.two_sampler_jobs "increment" 7 5 "job"
           None None
           (fst (reseed_document Examples.two_sampler_jobs "increment" 7 5
                   "job" None None)) 4 2).
  reflexivity.
Defined.

Lemma zero_changes_same_document_example :
  fst (reseed_document MoreExamples.sequenced_queue "increment" 7 8 "global"
         None None) = MoreExamples.sequenced_queue.
Proof.
  apply (zero_changes_same_document MoreExamples.sequenced_queue "increment"
           7 8 "global" None None
           (fst (reseed_document MoreExamples.sequenced_queue "increment" 7 8
                   "global" None None)) 2).
  reflexivity.
Defined.

Lemma reseed_document_frame_example :
  Dict.get "client"
    (fst (reseed_document MoreExamples.sizing_queue "random" 0 1 "global"
            (Some 3) None)) = Some (VStr "ui").
Proof.
  apply (proj1 (proj2 (reseed_document_frame MoreExamples.sizing_queue
                         "random" 0 1 "global" (Some 3) None)) "client").
  simpl. intuition discriminate.
Defined.

Lemma no_seed_fields_no_effect_example :
  reseed_document Examples.save_video_queue "random" 0 1 "global" None None =
  (Examples.save_video_queue, Ok (0, 0)).
Proof.
  apply (no_seed_fields_no_effect Examples.save_video_queue "random" 0 1
           "global" None None).
  reflexivity.
Defined.

Lemma increment_second_run_example :
  reseed_document
    (fst (reseed_document Examples.two_sampler_jobs "increment" 10 5
            "global" None None))
    "increment" 10 5 "global" (Some 1) None =
  (fst (reseed_document Examples.two_sampler_jobs "increment" 10 5
          "global" None None), Ok (4, 0)).
Proof.
  apply (increment_second_run Examples.two_sampler_jobs
           (fst (reseed_document Examples.two_sampler_jobs "increment" 10 5
                   "global" None None))
           10 5 "global" None (Some 1) None 4 3).
  - repeat constructor; simpl; intuition discriminate.
  - reflexivity.
  - reflexivity.
Defined.



End InstanceFacts.
